(** * Overhead flights monitor: a shallow embedding of the Go sources

    The development follows the repository's files:
    - [Geo]          geo.go: Web-Mercator projection and its inverse;
    - [Flights]      flights.go: the OpenSky client, its snapshot cache and
                     the parsing of state vectors;
    - [TilesEbiten]  go_version/tiles.go: the tile loader of the Ebitengine
                     front end;
    - [TilesRaylib]  go_raylib/tiles.go: the tile loader of the Raylib front
                     end (pending set and response channel);
    - [Scraper]      go_raylib/scraper.go: extraction of route details;
    - [Airports]     go_version/data.go: the persisted airport list;
    - [Users]        go_version/data.go: the persisted user statistics;
    - [Scores]       go_version/data.go: the persisted high scores;
    - [Game]         go_version/main.go and go_raylib/main.go: round setup,
                     option generation and scoring.

    Conventions.  A Go [int] and a [time.Duration] are integers of [Z].
    Module [Geo], whose functions go through the trigonometric functions,
    idealises [float64] as the real numbers.  Everywhere else a finite
    [float64] is the rational number ([Q]) it stands for, and every
    arithmetic operation rounds its exact result as IEEE 754 binary64
    does ([round64]: to the nearest number with 53 significant bits, ties
    to the even one); a decimal literal of the source is the [float64]
    nearest to it.  A decoded JSON document ([interface{}] after
    [json.Unmarshal]) is a value of [json].  Clock readings, network
    replies and random draws are explicit arguments. *)

From Stdlib Require Import ZArith QArith Qround Qminmax Qabs Qpower Lqa.
From Stdlib Require Import Reals Lra Lia.
From Stdlib Require PrimFloat FloatOps Uint63.
From stdpp Require Import gmap strings list fin_maps.

#[local] Set Warnings "-register-all,-clear-no-such-hyp".

(** ** Decoded JSON values

    What [encoding/json] stores in an [interface{}]: [nil], [bool],
    [float64], [string], [[]interface{}] and [map[string]interface{}]. *)
Inductive json : Type :=
| JNull
| JBool (b : bool)
| JNum (q : Q)
| JStr (s : string)
| JArr (l : list json)
| JObj (m : gmap string json).

(** ** float64

    [two_to k] is 2 to the power [k], and [binade x] the exponent of the
    leading bit of [x]: the [k] with [2^k <= |x| < 2^(k+1)]. *)
Definition two_to (k : Z) : Q := Qpower 2 k.

Definition binade (x : Q) : Z :=
  let k := (Z.log2 (Z.abs (Qnum x)) - Z.log2 (Zpos (Qden x)))%Z in
  if Qle_bool (two_to k) (Qabs x) then k else (k - 1)%Z.

(** The integer nearest to [q]; of two that are equally near, the even
    one. *)
Definition nearestEven (q : Q) : Z :=
  let f := Qfloor q in
  match (q - inject_Z f ?= 1 # 2)%Q with
  | Lt => f
  | Gt => (f + 1)%Z
  | Eq => if Z.even f then f else (f + 1)%Z
  end.

(** Rounding to binary64: the nearest multiple of the unit in the last
    place, which is [2^(binade x - 52)], and [2^-1074] for the subnormal
    numbers.  A result of magnitude [2^1024] or more, where the [float64]
    is infinite, is not reached by the computations below, except by a
    product that is then outside the range of [int] as well. *)
Definition round64 (x : Q) : Q :=
  if Qeq_bool x 0 then 0%Q
  else
    let p := Z.max (binade x - 52) (-1074) in
    Qred (inject_Z (nearestEven (x / two_to p)) * two_to p).

(** [x + y], [x - y], [x * y] and [x / y] on [float64] *)
Definition float64_add (x y : Q) : Q := round64 (x + y).
Definition float64_sub (x y : Q) : Q := round64 (x - y).
Definition float64_mul (x y : Q) : Q := round64 (x * y).
Definition float64_div (x y : Q) : Q := round64 (x / y).

(** [math.Max] on finite numbers *)
Definition math_Max (x y : Q) : Q := Qmax x y.

(** The range of a 64-bit [int]. *)
Definition minInt : Z := - 2 ^ 63.
Definition maxInt : Z := 2 ^ 63 - 1.

(** [int(x)] for a [float64] [x]: the fractional part is discarded
    (truncation towards zero).  For a value outside the range of [int] the
    language leaves the result to the implementation; [minInt] is what
    amd64 gives. *)
Definition float64_to_int (x : Q) : Z :=
  let n := Z.quot (Qnum x) (Zpos (Qden x)) in
  if (minInt <=? n)%Z && (n <=? maxInt)%Z then n else minInt.

(** [float64(n)] for an integer [n]. *)
Definition float64_of_int (n : Z) : Q := round64 (inject_Z n).

(** The range of a 64-bit signed integer, and [time.Time.Sub], which
    saturates at the extreme durations. *)
Definition minDuration : Z := - 2 ^ 63.
Definition maxDuration : Z := 2 ^ 63 - 1.

Definition time_Sub (t u : Z) : Z :=
  Z.max minDuration (Z.min maxDuration (t - u)).

(** [time.Since(t)], read when the clock shows [now]. *)
Definition time_Since (now t : Z) : Z := time_Sub now t.

Definition Second : Z := 1000000000.

(** *** The same operations on Rocq's primitive binary64 numbers

    [Binary64] evaluates the two float computations of the sources with
    the kernel's floating-point numbers, for comparison with the model
    above. *)
Module Binary64.

(** The rational a finite primitive number stands for. *)
Definition toQ (f : PrimFloat.float) : Q :=
  match FloatOps.Prim2SF f with
  | SpecFloat.S754_finite s m e =>
      Qred ((if s then -1 else 1) * inject_Z (Zpos m) * two_to e)
  | _ => 0%Q
  end.

(** [float64(n)] for [0 <= n < 2^63]. *)
Definition ofZ (n : Z) : PrimFloat.float :=
  PrimFloat.of_uint63 (Uint63.of_Z n).

(** The literal [a.b] as the quotient of two integers: a correctly rounded
    division gives the number nearest to the literal. *)
Definition literal (a b : Z) : PrimFloat.float :=
  PrimFloat.div (ofZ a) (ofZ b).

(** [int((20.0-elapsed)/20.0*100.0)] for a duration of [d] nanoseconds,
    [0 <= d < 20 s], where the value is not negative. *)
Definition bonus (d : Z) : Z :=
  let elapsed :=
    PrimFloat.add (ofZ (Z.quot d Second))
                  (PrimFloat.div (ofZ (Z.rem d Second)) (ofZ 1000000000)) in
  float64_to_int
    (toQ (PrimFloat.mul
            (PrimFloat.div (PrimFloat.sub (ofZ 20) elapsed) (ofZ 20))
            (ofZ 100))).

(** [int(x * 3.28084)] and [int(x * 1.94384)] *)
Definition feet (x : PrimFloat.float) : Z :=
  float64_to_int (toQ (PrimFloat.mul x (literal 328084 100000))).

Definition knots (x : PrimFloat.float) : Z :=
  float64_to_int (toQ (PrimFloat.mul x (literal 194384 100000))).

End Binary64.

(** *** Rounding: error and sign *)

Lemma two_to_pos k : (0 < two_to k)%Q.
Proof. apply Qpower_0_lt. reflexivity. Qed.

Lemma two_to_plus a b : (two_to (a + b) == two_to a * two_to b)%Q.
Proof. apply Qpower_plus. discriminate. Qed.

Lemma two_to_le a b : (a <= b)%Z -> (two_to a <= two_to b)%Q.
Proof. intros H. apply Qpower_le_compat_l; [done | discriminate]. Qed.

Lemma two_to_le_inv a b : (two_to a <= two_to b)%Q -> (a <= b)%Z.
Proof. intros H. apply (Qpower_le_compat_l_inv 2); [done | reflexivity]. Qed.

Lemma two_to_Z a : (0 <= a)%Z -> (two_to a == inject_Z (2 ^ a))%Q.
Proof. intros H. unfold two_to. by rewrite Zpower_Qpower. Qed.

(** The leading bit is not above the number. *)
Lemma binade_lower x : ~ (x == 0)%Q -> (two_to (binade x) <= Qabs x)%Q.
Proof.
  intros Hx. unfold binade. cbv zeta.
  set (n := Z.abs (Qnum x)). set (d := Qden x).
  destruct (Qle_bool _ _) eqn:E; [by apply Qle_bool_iff |].
  assert (Hn : (0 < n)%Z).
  { subst n. destruct x as [[| a | a] b]; simpl; [| lia | lia].
    exfalso. by apply Hx. }
  assert (Habs : (Qabs x == n # d)%Q) by (by destruct x).
  rewrite Habs.
  replace (Z.log2 n - Z.log2 (Z.pos d) - 1)%Z
    with (Z.log2 n - (Z.log2 (Z.pos d) + 1))%Z by lia.
  pose proof (Z.log2_nonneg n) as Ha. pose proof (Z.log2_nonneg (Z.pos d)) as Hb.
  unfold two_to. rewrite Qpower_minus by discriminate.
  fold (two_to (Z.log2 n)). fold (two_to (Z.log2 (Z.pos d) + 1)).
  apply Qle_shift_div_r; [apply two_to_pos |].
  rewrite !two_to_Z by lia.
  destruct (Z.log2_spec n Hn) as [Hlo _].
  destruct (Z.log2_spec (Z.pos d) ltac:(lia)) as [_ Hhi].
  replace (Z.succ (Z.log2 (Z.pos d))) with (Z.log2 (Z.pos d) + 1)%Z in Hhi by lia.
  set (A := (2 ^ Z.log2 n)%Z) in *. set (B := (2 ^ (Z.log2 (Z.pos d) + 1))%Z) in *.
  unfold Qle, Qmult, inject_Z. simpl. nia.
Qed.

Lemma nearestEven_error q :
  (q - (1 # 2) <= inject_Z (nearestEven q) <= q + (1 # 2))%Q.
Proof.
  unfold nearestEven. cbv zeta.
  pose proof (Qfloor_le q) as Hlo. pose proof (Qlt_floor q) as Hhi.
  rewrite inject_Z_plus in Hhi. change (inject_Z 1) with 1%Q in Hhi.
  destruct (Qcompare_spec (q - inject_Z (Qfloor q)) (1 # 2)) as [H | H | H];
    [destruct (Z.even _) | |]; rewrite ?inject_Z_plus;
    change (inject_Z 1) with 1%Q; split; Lqa.lra.
Qed.

Lemma nearestEven_nonneg q : (0 <= q)%Q -> (0 <= nearestEven q)%Z.
Proof.
  intros Hq. assert (Hf : (0 <= Qfloor q)%Z).
  { change 0%Z with (Qfloor 0). by apply Qfloor_resp_le. }
  unfold nearestEven. cbv zeta. repeat case_match; lia.
Qed.

Lemma nearestEven_nonpos q : (q <= 0)%Q -> (nearestEven q <= 0)%Z.
Proof.
  intros Hq. pose proof (nearestEven_error q) as [_ H].
  apply Z.lt_succ_r. rewrite Zlt_Qlt. unfold Z.succ.
  change (inject_Z (0 + 1)) with 1%Q. Lqa.lra.
Qed.

Lemma round64_eq x :
  ~ (x == 0)%Q ->
  let p := Z.max (binade x - 52) (-1074) in
  (round64 x == inject_Z (nearestEven (x / two_to p)) * two_to p)%Q.
Proof.
  intros Hx. unfold round64.
  destruct (Qeq_bool x 0) eqn:E; [by apply Qeq_bool_iff in E |].
  cbv zeta. apply Qred_correct.
Qed.

Lemma round64_zero x : (x == 0)%Q -> round64 x = 0%Q.
Proof. intros H. unfold round64. apply Qeq_bool_iff in H. by rewrite H. Qed.

(** A rounded result is within half a unit in the last place of the exact
    one: within [2^(k-53)] for an exact result of magnitude at most
    [2^k]. *)
Lemma round64_error x k :
  (-1022 <= k)%Z -> (Qabs x <= two_to k)%Q ->
  (x - two_to (k - 53) <= round64 x <= x + two_to (k - 53))%Q.
Proof.
  intros Hk Hx.
  pose proof (two_to_pos (k - 53)) as Hpos.
  destruct (Qeq_dec x 0) as [H0 | H0].
  { rewrite (round64_zero x H0). split; Lqa.lra. }
  rewrite (round64_eq x H0). cbv zeta.
  set (p := Z.max (binade x - 52) (-1074)).
  assert (Hp : (p - 1 <= k - 53)%Z).
  { pose proof (binade_lower x H0) as Hb.
    assert (binade x <= k)%Z by (apply two_to_le_inv; Lqa.lra). lia. }
  apply two_to_le in Hp.
  assert (Hhalf : (two_to p == 2 * two_to (p - 1))%Q).
  { replace p with (1 + (p - 1))%Z at 1 by lia. by rewrite two_to_plus. }
  pose proof (two_to_pos (p - 1)) as Hp1.
  pose proof (nearestEven_error (x / two_to p)) as [Hlo Hhi].
  set (N := inject_Z (nearestEven (x / two_to p))) in *.
  assert (Hy : (x == (x / two_to p) * two_to p)%Q).
  { field. pose proof (two_to_pos p). Lqa.lra. }
  set (y := (x / two_to p)%Q) in *.
  set (t := two_to p) in *. set (h := two_to (p - 1)) in *.
  set (e := two_to (k - 53)) in *.
  split; Lqa.nra.
Qed.

(** Rounding keeps the sign. *)
Lemma round64_nonneg x : (0 <= x)%Q -> (0 <= round64 x)%Q.
Proof.
  intros Hx. destruct (Qeq_dec x 0) as [H0 | H0].
  { rewrite (round64_zero x H0). Lqa.lra. }
  rewrite (round64_eq x H0). cbv zeta.
  set (p := Z.max (binade x - 52) (-1074)).
  pose proof (two_to_pos p) as Hp.
  apply Qmult_le_0_compat; [| Lqa.lra].
  change 0%Q with (inject_Z 0). rewrite <- Zle_Qle.
  apply nearestEven_nonneg. apply Qle_shift_div_l; [done | Lqa.lra].
Qed.

Lemma round64_nonpos x : (x <= 0)%Q -> (round64 x <= 0)%Q.
Proof.
  intros Hx. destruct (Qeq_dec x 0) as [H0 | H0].
  { rewrite (round64_zero x H0). Lqa.lra. }
  rewrite (round64_eq x H0). cbv zeta.
  set (p := Z.max (binade x - 52) (-1074)).
  pose proof (two_to_pos p) as Hp.
  assert (HN : (inject_Z (nearestEven (x / two_to p)) <= 0)%Q).
  { change 0%Q with (inject_Z 0). rewrite <- Zle_Qle.
    apply nearestEven_nonpos. apply Qle_shift_div_r; [done | Lqa.lra]. }
  set (N := inject_Z _) in *. set (t := two_to p) in *. Lqa.nra.
Qed.

(** Bounds of a rounded result [round64 x] from bounds of [x], which has
    magnitude at most [2^k]. *)
Ltac rounded H x k :=
  let lo := eval vm_compute in (- two_to k)%Q in
  let hi := eval vm_compute in (two_to k) in
  let e := eval vm_compute in (two_to (k - 53)) in
  let Hb := fresh "Hb" in
  assert (Hb : (Qabs x <= two_to k)%Q)
    by (apply Qabs_Qle_condition; change (- two_to k)%Q with lo;
        change (two_to k) with hi; split; Lqa.lra);
  pose proof (round64_error x k ltac:(lia) Hb) as H;
  change (two_to (k - 53)) with e in H; clear Hb.

(** *** Conversion to an integer *)

(** Within the range of [int] the conversion is the floor on the
    non-negative numbers and the ceiling on the others. *)
Lemma float64_to_int_in_range x :
  (inject_Z minInt <= x <= inject_Z maxInt)%Q ->
  float64_to_int x = Z.quot (Qnum x) (Zpos (Qden x)).
Proof.
  intros [Hlo Hhi]. unfold float64_to_int. cbv zeta.
  set (n := Z.quot (Qnum x) (Z.pos (Qden x))).
  assert (Hn : (minInt <= n <= maxInt)%Z).
  { subst n. destruct x as [a b]. unfold Qle, inject_Z in *. simpl in *.
    rewrite Z.mul_1_r in *. unfold minInt, maxInt in *.
    split.
    - apply Z.quot_le_lower_bound; lia.
    - destruct (Z.le_gt_cases 0 a) as [Ha | Ha].
      + apply Z.quot_le_upper_bound; lia.
      + assert (a ÷ Z.pos b <= 0)%Z; [| lia].
        rewrite <- (Z.opp_involutive a), Z.quot_opp_l by lia.
        assert (0 <= - a ÷ Z.pos b)%Z by (apply Z.quot_pos; lia). lia. }
  destruct (Z.leb_spec minInt n), (Z.leb_spec n maxInt); simpl; lia.
Qed.

Lemma float64_to_int_nonneg x :
  (0 <= x <= inject_Z maxInt)%Q -> float64_to_int x = Qfloor x.
Proof.
  intros [Hlo Hhi]. rewrite float64_to_int_in_range.
  - destruct x as [n d]. unfold Qle, Qfloor in *. simpl in *.
    apply Z.quot_div_nonneg; lia.
  - split; [| done]. eapply Qle_trans; [| exact Hlo]. by vm_compute.
Qed.

Lemma float64_to_int_nonpos x :
  (inject_Z minInt <= x <= 0)%Q -> float64_to_int x = Qceiling x.
Proof.
  intros [Hlo Hhi]. rewrite float64_to_int_in_range.
  - destruct x as [n d]. unfold Qle, Qceiling, Qfloor in *. simpl in *.
    rewrite <- (Z.opp_involutive n) at 1. rewrite Z.quot_opp_l by lia.
    f_equal. apply Z.quot_div_nonneg; lia.
  - split; [done |]. eapply Qle_trans; [exact Hhi |]. by vm_compute.
Qed.

Lemma float64_to_int_floor x n :
  (0 <= n <= maxInt)%Z -> (inject_Z n <= x)%Q -> (x < inject_Z (n + 1))%Q ->
  float64_to_int x = n.
Proof.
  intros Hn Hlo Hhi.
  assert (Hf : Qfloor x = n).
  { apply Z.le_antisymm.
    - apply Z.lt_succ_r. rewrite Zlt_Qlt. pose proof (Qfloor_le x).
      unfold Z.succ. Lqa.lra.
    - apply Z.lt_succ_r. rewrite Zlt_Qlt. pose proof (Qlt_floor x).
      unfold Z.succ. rewrite inject_Z_plus in *. Lqa.lra. }
  assert (H0 : (0 <= inject_Z n)%Q)
    by (change 0%Q with (inject_Z 0); rewrite <- Zle_Qle; lia).
  assert (Hmax : (inject_Z (n + 1) <= inject_Z maxInt + 1)%Q).
  { rewrite inject_Z_plus. change (inject_Z 1) with 1%Q.
    assert (inject_Z n <= inject_Z maxInt)%Q by (rewrite <- Zle_Qle; lia).
    Lqa.lra. }
  rewrite <- Hf. unfold float64_to_int. cbv zeta.
  assert (Hq : Z.quot (Qnum x) (Z.pos (Qden x)) = Qfloor x).
  { assert (Hx : (0 <= x)%Q) by Lqa.lra.
    destruct x as [a b]. unfold Qle in Hx. simpl in *.
    unfold Qfloor. apply Z.quot_div_nonneg; lia. }
  rewrite Hq, Hf. unfold minInt, maxInt in *.
  destruct (Z.leb_spec (- 2 ^ 63) n), (Z.leb_spec n (2 ^ 63 - 1)); simpl; lia.
Qed.

(** * geo.go *)
Module Geo.
Local Open Scope R_scope.

Definition tileSize : R := 256.

(** [math.Pow(2, float64(zoom))] *)
Definition pow2 (zoom : Z) : R := powerRZ 2 zoom.

Definition LatLonToPixels (lat lon : R) (zoom : Z) : R * R :=
  let scale := pow2 zoom in
  let x := (lon + 180) / 360 * scale * tileSize in
  let latRad := lat * PI / 180 in
  let y := (1 - ln (tan latRad + 1 / cos latRad) / PI) / 2 * scale * tileSize in
  (x, y).

Definition PixelsToLatLon (x y : R) (zoom : Z) : R * R :=
  let scale := pow2 zoom in
  let lon := (x / (scale * tileSize) * 360) - 180 in
  let n := PI - 2 * PI * y / (scale * tileSize) in
  let lat := 180 / PI * atan (0.5 * (exp n - exp (- n))) in
  (lat, lon).

(** [math.Atan2(y, x)] on the real numbers. *)
Definition atan2 (y x : R) : R :=
  if Rlt_dec 0 x then atan (y / x)
  else if Rlt_dec x 0 then
         if Rle_dec 0 y then atan (y / x) + PI else atan (y / x) - PI
       else if Rlt_dec 0 y then PI / 2
            else if Rlt_dec y 0 then - (PI / 2) else 0.

(** The quantity [a] of the haversine formula. *)
Definition haversine (lat1 lon1 lat2 lon2 : R) : R :=
  let dLat := (lat2 - lat1) * PI / 180 in
  let dLon := (lon2 - lon1) * PI / 180 in
  sin (dLat / 2) * sin (dLat / 2) +
  cos (lat1 * PI / 180) * cos (lat2 * PI / 180) *
  sin (dLon / 2) * sin (dLon / 2).

Definition Distance (lat1 lon1 lat2 lon2 : R) : R :=
  let a := haversine lat1 lon1 lat2 lon2 in
  let c := 2 * atan2 (sqrt a) (sqrt (1 - a)) in
  6371 * c.

Lemma pow2_pos zoom : 0 < pow2 zoom.
Proof. unfold pow2. apply powerRZ_lt. lra. Qed.

Lemma latRad_range lat :
  -90 < lat < 90 -> - (PI / 2) < lat * PI / 180 < PI / 2.
Proof.
  intros [Hlo Hhi]. pose proof PI_RGT_0 as Hpi. split; nra.
Qed.

Lemma sin_gt_m1 phi : - (PI / 2) < phi < PI / 2 -> -1 < sin phi.
Proof.
  intros [Hlo Hhi].
  assert (H : sin (- (PI / 2)) < sin phi) by (apply sin_increasing_1; lra).
  rewrite sin_neg, sin_PI2 in H. lra.
Qed.

(** The argument of the logarithm is positive away from the poles. *)
Lemma mercator_arg_pos phi :
  - (PI / 2) < phi < PI / 2 -> 0 < tan phi + 1 / cos phi.
Proof.
  intros Hphi.
  assert (Hc : 0 < cos phi) by (apply cos_gt_0; lra).
  pose proof (sin_gt_m1 phi Hphi) as Hs.
  unfold tan.
  replace (sin phi / cos phi + 1 / cos phi) with ((sin phi + 1) / cos phi)
    by (field; lra).
  apply Rdiv_lt_0_compat; lra.
Qed.

(** The hyperbolic sine of the Mercator ordinate is the tangent. *)
Lemma sinh_mercator phi :
  - (PI / 2) < phi < PI / 2 ->
  let u := tan phi + 1 / cos phi in
  0.5 * (u - / u) = tan phi.
Proof.
  intros Hphi u.
  assert (Hc : 0 < cos phi) by (apply cos_gt_0; lra).
  pose proof (sin_gt_m1 phi Hphi) as Hs.
  pose proof (sin2_cos2 phi) as Hsc. unfold Rsqr in Hsc.
  subst u. unfold tan.
  replace (sin phi / cos phi + 1 / cos phi) with ((sin phi + 1) / cos phi)
    by (field; lra).
  replace (/ ((sin phi + 1) / cos phi)) with (cos phi / (sin phi + 1))
    by (field; lra).
  apply Rmult_eq_reg_r with (cos phi * (sin phi + 1)); [| nra].
  field_simplify; [| lra | lra]. nra.
Qed.

(** C9. For every latitude strictly between -90 and +90 degrees, every
    longitude and every zoom level, [PixelsToLatLon] applied to the result
    of [LatLonToPixels] at the same zoom gives back the latitude and the
    longitude, exactly over the real numbers. *)
Theorem project_unproject (lat lon : R) (zoom : Z) :
  -90 < lat < 90 ->
  PixelsToLatLon (fst (LatLonToPixels lat lon zoom))
                 (snd (LatLonToPixels lat lon zoom)) zoom = (lat, lon).
Proof.
  intros Hlat. unfold LatLonToPixels, PixelsToLatLon, tileSize. simpl fst. simpl snd.
  pose proof (pow2_pos zoom) as Hs.
  pose proof PI_RGT_0 as Hpi.
  pose proof (latRad_range lat Hlat) as Hphi.
  set (phi := lat * PI / 180) in *.
  set (u := tan phi + 1 / cos phi).
  assert (Hu : 0 < u) by (apply mercator_arg_pos; assumption).
  assert (Hn : PI - 2 * PI * ((1 - ln u / PI) / 2 * pow2 zoom * 256)
                    / (pow2 zoom * 256) = ln u).
  { field. split; lra. }
  rewrite Hn, exp_Ropp, exp_ln by assumption.
  fold u. rewrite (sinh_mercator phi Hphi : 0.5 * (u - / u) = tan phi).
  rewrite atan_tan by assumption.
  f_equal.
  - subst phi. field. lra.
  - field. lra.
Qed.

Lemma project_unproject_witness :
  -90 < 60 < 90 /\
  PixelsToLatLon (fst (LatLonToPixels 60 25 10))
                 (snd (LatLonToPixels 60 25 10)) 10 = (60, 25).
Proof.
  split; [lra | apply (project_unproject 60 25 10); lra].
Defined.

(** ** More on the projection and the distance *)

Lemma pow2_succ zoom : pow2 (zoom + 1) = 2 * pow2 zoom.
Proof.
  unfold pow2. rewrite powerRZ_add by lra. rewrite powerRZ_1. lra.
Qed.

(** One zoom level further in, both pixel coordinates double. *)
Theorem LatLonToPixels_zoom_in (lat lon : R) (zoom : Z) :
  LatLonToPixels lat lon (zoom + 1)
  = (2 * fst (LatLonToPixels lat lon zoom), 2 * snd (LatLonToPixels lat lon zoom)).
Proof.
  unfold LatLonToPixels. simpl fst. simpl snd. rewrite pow2_succ.
  f_equal; lra.
Qed.

(** The longitude maps linearly to the width of the map: -180 degrees to
    pixel 0 and +180 degrees to [256 * 2^zoom], whatever the latitude. *)
Theorem LatLonToPixels_x_range (lat lon : R) (zoom : Z) :
  -180 <= lon <= 180 ->
  0 <= fst (LatLonToPixels lat lon zoom) <= tileSize * pow2 zoom /\
  fst (LatLonToPixels lat (-180) zoom) = 0 /\
  fst (LatLonToPixels lat 180 zoom) = tileSize * pow2 zoom.
Proof.
  intros [Hlo Hhi]. unfold LatLonToPixels, tileSize. simpl fst.
  pose proof (pow2_pos zoom) as Hs.
  repeat split; [nra | nra | lra | lra].
Qed.

Lemma LatLonToPixels_x_range_witness :
  -180 <= 25 <= 180 /\
  0 <= fst (LatLonToPixels 60 25 10) <= tileSize * pow2 10.
Proof.
  split; [lra |]. apply (LatLonToPixels_x_range 60 25 10). lra.
Defined.

Lemma cosh_sinh_sqrt n :
  sqrt (1 + (0.5 * (exp n - exp (- n)))²) = 0.5 * (exp n + exp (- n)).
Proof.
  pose proof (exp_pos n) as Hp. pose proof (exp_pos (- n)) as Hm.
  assert (Hprod : exp n * exp (- n) = 1)
    by (rewrite <- exp_plus, Rplus_opp_r; apply exp_0).
  replace (1 + (0.5 * (exp n - exp (- n)))²)
    with ((0.5 * (exp n + exp (- n))) * (0.5 * (exp n + exp (- n))))
    by (unfold Rsqr; nra).
  apply sqrt_square. nra.
Qed.

(** The projection undoes the inverse projection at the same zoom, for all
    pixel coordinates. *)
Theorem unproject_project (x y : R) (zoom : Z) :
  LatLonToPixels (fst (PixelsToLatLon x y zoom))
                 (snd (PixelsToLatLon x y zoom)) zoom = (x, y).
Proof.
  unfold LatLonToPixels, PixelsToLatLon, tileSize. simpl fst. simpl snd.
  pose proof (pow2_pos zoom) as Hs.
  pose proof PI_RGT_0 as Hpi.
  set (n := PI - 2 * PI * y / (pow2 zoom * 256)).
  set (sh := 0.5 * (exp n - exp (- n))).
  replace (180 / PI * atan sh * PI / 180) with (atan sh) by (field; lra).
  rewrite tan_atan, cos_atan.
  unfold sh at 2. rewrite cosh_sinh_sqrt.
  pose proof (exp_pos n) as Hp. pose proof (exp_pos (- n)) as Hm.
  set (ch := 0.5 * (exp n + exp (- n))).
  assert (Hch : 0 < ch) by (unfold ch; lra).
  replace (1 / (1 / ch)) with ch by (field; lra).
  replace (sh + ch) with (exp n) by (unfold sh, ch; lra).
  rewrite ln_exp. unfold n.
  f_equal; field; lra.
Qed.

Lemma haversine_sym lat1 lon1 lat2 lon2 :
  haversine lat1 lon1 lat2 lon2 = haversine lat2 lon2 lat1 lon1.
Proof.
  unfold haversine.
  replace ((lat1 - lat2) * PI / 180 / 2) with (- ((lat2 - lat1) * PI / 180 / 2))
    by lra.
  replace ((lon1 - lon2) * PI / 180 / 2) with (- ((lon2 - lon1) * PI / 180 / 2))
    by lra.
  rewrite !sin_neg. ring.
Qed.

(** The distance does not depend on the order of the two points. *)
Theorem Distance_sym (lat1 lon1 lat2 lon2 : R) :
  Distance lat1 lon1 lat2 lon2 = Distance lat2 lon2 lat1 lon1.
Proof. unfold Distance. by rewrite (haversine_sym lat1 lon1 lat2 lon2). Qed.

(** The distance from a point to itself is zero. *)
Theorem Distance_self (lat lon : R) : Distance lat lon lat lon = 0.
Proof.
  unfold Distance, haversine.
  replace ((lat - lat) * PI / 180 / 2) with 0 by lra.
  replace ((lon - lon) * PI / 180 / 2) with 0 by lra.
  rewrite sin_0.
  replace (0 * 0 + cos (lat * PI / 180) * cos (lat * PI / 180) * 0 * 0) with 0
    by ring.
  rewrite Rminus_0_r, sqrt_0, sqrt_1. unfold atan2.
  destruct (Rlt_dec 0 1) as [_ | H]; [| lra].
  replace (0 / 1) with 0 by lra. rewrite atan_0. lra.
Qed.

(** For latitudes between the poles the quantity [a] lies between 0 and
    1, so both square roots of [Distance] are those of non-negative
    numbers. *)
Lemma haversine_range lat1 lon1 lat2 lon2 :
  -90 <= lat1 <= 90 -> -90 <= lat2 <= 90 ->
  0 <= haversine lat1 lon1 lat2 lon2 <= 1.
Proof.
  intros H1 H2. unfold haversine.
  pose proof PI_RGT_0 as Hpi.
  set (p1 := lat1 * PI / 180). set (p2 := lat2 * PI / 180).
  replace ((lat2 - lat1) * PI / 180 / 2) with ((p2 - p1) / 2)
    by (unfold p1, p2; lra).
  set (u := (p2 - p1) / 2). set (v := (lon2 - lon1) * PI / 180 / 2).
  assert (Hc1 : 0 <= cos p1) by (apply cos_ge_0; unfold p1; nra).
  assert (Hc2 : 0 <= cos p2) by (apply cos_ge_0; unfold p2; nra).
  pose proof (SIN_bound v) as Hv. pose proof (SIN_bound u) as Hu.
  assert (Hv2 : 0 <= sin v * sin v <= 1) by nra.
  assert (Hcc : 0 <= cos p1 * cos p2) by nra.
  split; [nra |].
  (* sin^2 u + cos p1 cos p2 = (1 + cos (p1 + p2)) / 2 *)
  assert (Hsum : sin u * sin u + cos p1 * cos p2 = (1 + cos (p1 + p2)) / 2).
  { pose proof (cos_2a_sin u) as H2a.
    replace (2 * u) with (p2 - p1) in H2a by (unfold u; lra).
    rewrite cos_minus in H2a. rewrite cos_plus. nra. }
  pose proof (COS_bound (p1 + p2)) as Hb. nra.
Qed.

(** Over the real numbers: between the poles the distance is never
    negative and never more than half the circumference of the sphere of
    radius 6371 km.  (In [float64] the rounding of [a] near antipodal
    points is outside this statement.) *)
Theorem Distance_bounds (lat1 lon1 lat2 lon2 : R) :
  -90 <= lat1 <= 90 -> -90 <= lat2 <= 90 ->
  0 <= Distance lat1 lon1 lat2 lon2 <= 6371 * PI.
Proof.
  intros H1 H2. unfold Distance.
  pose proof (haversine_range lat1 lon1 lat2 lon2 H1 H2) as [Ha0 Ha1].
  set (a := haversine lat1 lon1 lat2 lon2) in *.
  pose proof PI_RGT_0 as Hpi.
  pose proof (sqrt_pos a) as Hy. pose proof (sqrt_pos (1 - a)) as Hx.
  assert (Hc : 0 <= atan2 (sqrt a) (sqrt (1 - a)) <= PI / 2).
  { unfold atan2.
    destruct (Rlt_dec 0 (sqrt (1 - a))) as [Hpos | Hnpos].
    - pose proof (atan_bound (sqrt a / sqrt (1 - a))) as Hb.
      split; [| lra].
      rewrite <- atan_0.
      destruct (Req_dec (sqrt a) 0) as [-> | Hne].
      + replace (0 / sqrt (1 - a)) with 0 by (field; lra). lra.
      + left. apply atan_increasing. apply Rdiv_lt_0_compat; lra.
    - destruct (Rlt_dec (sqrt (1 - a)) 0) as [Hneg | _]; [lra |].
      destruct (Rlt_dec 0 (sqrt a)) as [_ | Hn]; [lra |].
      destruct (Rlt_dec (sqrt a) 0) as [Hneg | _]; lra. }
  lra.
Qed.

Lemma Distance_bounds_witness :
  -90 <= 60 <= 90 /\ -90 <= 48 <= 90 /\
  0 <= Distance 60 25 48 2 <= 6371 * PI.
Proof.
  split; [lra |]. split; [lra |].
  apply (Distance_bounds 60 25 48 2); lra.
Defined.

End Geo.

(** * Go library functions used by the sources *)
Module GoStrings.

(** Length in bytes of a white-space rune ([unicode.IsSpace]) encoded in
    UTF-8 at the head of the byte sequence, or [0] when there is none:
    U+0009..U+000D, U+0020, U+0085, U+00A0, U+1680, U+2000..U+200A,
    U+2028, U+2029, U+202F, U+205F and U+3000. *)
Definition spaceAtHead (bs : list N) : nat :=
  match bs with
  | c :: rest =>
      if ((9 <=? c) && (c <=? 13) || (c =? 32))%N then 1%nat
      else match c, rest with
           | 194%N, d :: _ => if ((d =? 133) || (d =? 160))%N then 2%nat else 0%nat
           | 225%N, 154%N :: 128%N :: _ => 3%nat
           | 226%N, 128%N :: d :: _ =>
               if ((128 <=? d) && (d <=? 138) || (d =? 168) || (d =? 169) || (d =? 175))%N
               then 3%nat else 0%nat
           | 226%N, 129%N :: 159%N :: _ => 3%nat
           | 227%N, 128%N :: 128%N :: _ => 3%nat
           | _, _ => 0%nat
           end
  | [] => 0%nat
  end.

(** The same for a white-space rune at the end: the argument is the byte
    sequence reversed. *)
Definition spaceAtTail (rbs : list N) : nat :=
  match rbs with
  | c :: rest =>
      if ((9 <=? c) && (c <=? 13) || (c =? 32))%N then 1%nat
      else match rest with
           | 194%N :: _ => if ((c =? 133) || (c =? 160))%N then 2%nat else 0%nat
           | 154%N :: 225%N :: _ => if (c =? 128)%N then 3%nat else 0%nat
           | 128%N :: 226%N :: _ =>
               if ((128 <=? c) && (c <=? 138) || (c =? 168) || (c =? 169) || (c =? 175))%N
               then 3%nat else 0%nat
           | 129%N :: 226%N :: _ => if (c =? 159)%N then 3%nat else 0%nat
           | 128%N :: 227%N :: _ => if (c =? 128)%N then 3%nat else 0%nat
           | _ => 0%nat
           end
  | [] => 0%nat
  end.

Fixpoint trimWith (atHead : list N -> nat) (fuel : nat) (bs : list N) : list N :=
  match fuel with
  | O => bs
  | S fuel' =>
      match atHead bs with
      | O => bs
      | n => trimWith atHead fuel' (drop n bs)
      end
  end.

Definition bytes_of (s : string) : list N := Ascii.N_of_ascii <$> String.list_ascii_of_string s.
Definition string_of (bs : list N) : string := String.string_of_list_ascii (Ascii.ascii_of_N <$> bs).

(** [strings.TrimSpace] *)
Definition TrimSpace (s : string) : string :=
  let bs := bytes_of s in
  let l := trimWith spaceAtHead (length bs) bs in
  let r := trimWith spaceAtTail (length l) (reverse l) in
  string_of (reverse r).

(** [strings.Contains] *)
Fixpoint Contains (s substr : string) : bool :=
  String.prefix substr s ||
  match s with
  | EmptyString => false
  | String _ s' => Contains s' substr
  end.

Example TrimSpace_callsign : TrimSpace "FIN123  " = "FIN123".
Proof. reflexivity. Qed.

Example TrimSpace_blank : TrimSpace "        " = "".
Proof. reflexivity. Qed.

Example Contains_Helsinki : Contains "Helsinki-Vantaa (HEL)" "Vantaa" = true.
Proof. reflexivity. Qed.

End GoStrings.

(** * flights.go *)
Module Flights.
Import GoStrings.

Record Flight : Type := mkFlight {
  Icao24 : string;
  Callsign : string;
  Lon : Q;
  Lat : Q;
  VelocityKts : Z;
  Heading : Q;
  AltitudeFt : Z;
  OnGround : bool;
  Origin : string;
  Category : string;
  Destination : string
}.

Definition cacheDuration : Z := 10 * Second.

Definition categoryMap : gmap Z string :=
  list_to_map
    [ (0, "No Info"); (1, "No Info"); (2, "Light"); (3, "Small");
      (4, "Large"); (5, "High Vortex"); (6, "Heavy"); (7, "High Perf");
      (8, "Rotorcraft"); (9, "Glider"); (10, "Lighter-than-air");
      (11, "Parachutist"); (12, "Ultralight"); (13, "Reserved");
      (14, "UAV"); (15, "Space"); (16, "Emergency"); (17, "Service");
      (18, "Point Obstacle"); (19, "Cluster"); (20, "Line Obstacle") ]%Z.
Arguments categoryMap : simpl never.
#[global] Opaque categoryMap.

(** A slice of flights: the identity of its backing array ([0] for the nil
    slice, which has none) and its elements. *)
Record slice : Type := mkSlice {
  base : nat;
  elems : list Flight
}.

Definition nilSlice : slice := mkSlice 0 [].

Record FlightClient : Type := mkClient {
  cache : slice;
  lastFetch : Z;
  token : string;
  clientID : string;
  clientSec : string
}.

(** ** The body of the parsing loop

    One iteration either yields a value, leaves the iteration with
    [continue], or panics. *)
Inductive panic : Type :=
| IndexOutOfRange
| InterfaceConversion.

Inductive step (A : Type) : Type :=
| Val (a : A)
| Continue
| Panic (p : panic).
Arguments Val {A} a.
Arguments Continue {A}.
Arguments Panic {A} p.

#[export] Instance step_ret : MRet step := fun A a => Val a.
#[export] Instance step_bind : MBind step := fun A B k m =>
  match m with
  | Val a => k a
  | Continue => Continue
  | Panic p => Panic p
  end.

(** [s[i]] *)
Definition index (s : list json) (i : nat) : step json :=
  match s !! i with
  | Some v => Val v
  | None => Panic IndexOutOfRange
  end.

Definition isNil (v : json) : bool :=
  match v with JNull => true | _ => false end.

(** [v.(float64)], [v.(string)] and [v.(bool)] in their panicking form *)
Definition asFloat64 (v : json) : step Q :=
  match v with JNum q => Val q | _ => Panic InterfaceConversion end.

Definition asString (v : json) : step string :=
  match v with JStr s => Val s | _ => Panic InterfaceConversion end.

Definition asBool (v : json) : step bool :=
  match v with JBool b => Val b | _ => Panic InterfaceConversion end.

(** [x := 0.0; if s[i] != nil { x = s[i].(float64) }] *)
Definition floatOrZero (s : list json) (i : nat) : step Q :=
  v ← index s i;
  if isNil v then mret 0%Q else asFloat64 v.

Definition category (s : list json) : step string :=
  if (17 <? length s)%nat then
    v ← index s 17;
    if isNil v then mret "Unknown"
    else
      c ← asFloat64 v;
      let catCode := float64_to_int c in
      mret (default "Unknown" (categoryMap !! catCode))
  else mret "Unknown".

Definition parseState (s : list json) : step Flight :=
  s5 ← index s 5;
  if isNil s5 then Continue else
  s6 ← index s 6;
  if isNil s6 then Continue else
  lon ← asFloat64 s5;
  lat ← asFloat64 s6;
  s1 ← index s 1;
  cs ← asString s1;
  let callsign := TrimSpace cs in
  let callsign := if String.eqb callsign "" then "N/A" else callsign in
  altM ← floatOrZero s 7;
  let altFt := float64_to_int (float64_mul altM (round64 3.28084)) in
  velMs ← floatOrZero s 9;
  let velKts := float64_to_int (float64_mul velMs (round64 1.94384)) in
  heading ← floatOrZero s 10;
  catStr ← category s;
  s0 ← index s 0;
  icao ← asString s0;
  s8 ← index s 8;
  onGround ← asBool s8;
  s2 ← index s 2;
  origin ← asString s2;
  mret {| Icao24 := icao; Callsign := callsign; Lon := lon; Lat := lat;
          VelocityKts := velKts; Heading := heading; AltitudeFt := altFt;
          OnGround := onGround; Origin := origin; Category := catStr;
          Destination := "" |}.

(** The loop over [result.States], appending to [flights]; a panic in one
    iteration ends the loop. *)
Fixpoint parseStates (states : list (list json)) (flights : list Flight)
  : list Flight + panic :=
  match states with
  | [] => inl flights
  | s :: rest =>
      match parseState s with
      | Val f => parseStates rest (flights ++ [f])
      | Continue => parseStates rest flights
      | Panic p => inr p
      end
  end.

(** ** The world seen by one call of [FetchFlights] *)

(** What [io.ReadAll] and [json.Unmarshal] make of a 200 response. *)
Inductive body : Type :=
| ReadError
| Undecodable
| Decoded (states : list (list json)).

Inductive reply : Type :=
| RequestError
| TransportError
| Response (status : Z) (b : body).

Inductive error : Type :=
| ErrRequest
| ErrTransport
| ErrRateLimit
| ErrStatus (status : Z)
| ErrRead
| ErrDecode.

Record world : Type := mkWorld {
  clock_entry : Z;
  auth_token : option string;
  states_reply : reply;
  clock_exit : Z;
  fresh_array : nat
}.

(** Requests put on the network. *)
Inductive request : Type :=
| TokenRequest
| StatesRequest (bearer : string).

Inductive result : Type :=
| Return (flights : slice) (err : option error)
| Panics (p : panic).

(** [authenticate]: [w] answers the token request, [None] standing for any
    of its failures. *)
Definition authenticate (fc : FlightClient) (w : world)
  : FlightClient * list request :=
  if String.eqb (clientID fc) "" || String.eqb (clientSec fc) "" then (fc, [])
  else
    match auth_token w with
    | Some tok =>
        (mkClient (cache fc) (lastFetch fc) tok (clientID fc) (clientSec fc),
         [TokenRequest])
    | None => (fc, [TokenRequest])
    end.

Definition FetchFlights (fc : FlightClient) (w : world)
  : FlightClient * result * list request :=
  if (time_Since (clock_entry w) (lastFetch fc) <? cacheDuration)%Z
     && (0 <? length (elems (cache fc)))%nat
  then (fc, Return (cache fc) None, [])
  else
    let '(fc, sent) :=
      if negb (String.eqb (clientID fc) "") && String.eqb (token fc) ""
      then authenticate fc w else (fc, []) in
    match states_reply w with
    | RequestError => (fc, Return nilSlice (Some ErrRequest), sent)
    | TransportError =>
        (fc, Return nilSlice (Some ErrTransport), sent ++ [StatesRequest (token fc)])
    | Response status b =>
        let sent := sent ++ [StatesRequest (token fc)] in
        if (status =? 429)%Z then (fc, Return nilSlice (Some ErrRateLimit), sent)
        else if negb (status =? 200)%Z
        then (fc, Return nilSlice (Some (ErrStatus status)), sent)
        else
          match b with
          | ReadError => (fc, Return nilSlice (Some ErrRead), sent)
          | Undecodable => (fc, Return nilSlice (Some ErrDecode), sent)
          | Decoded states =>
              match parseStates states [] with
              | inr p => (fc, Panics p, sent)
              | inl fl =>
                  let flights :=
                    match fl with
                    | [] => nilSlice
                    | _ => mkSlice (fresh_array w) fl
                    end in
                  (mkClient flights (clock_exit w) (token fc) (clientID fc)
                            (clientSec fc),
                   Return flights None, sent)
              end
          end
    end.

(** A call is served from the cache when the snapshot is fresh and not
    empty. *)
Definition servedFromCache (fc : FlightClient) (w : world) : bool :=
  (time_Since (clock_entry w) (lastFetch fc) <? cacheDuration)%Z
  && (0 <? length (elems (cache fc)))%nat.

(** The entry at position [i] when it is a number, zero otherwise. *)
Definition entryOrZero (s : list json) (i : nat) : Q :=
  match s !! i with
  | Some (JNum q) => q
  | _ => 0%Q
  end.

(** The label of the category entry: looked up in [categoryMap] when the
    entry is a number, ["Unknown"] when it is null, absent or not in the
    table. *)
Definition categoryLabel (s : list json) : string :=
  match s !! 17%nat with
  | Some (JNum c) => default "Unknown" (categoryMap !! float64_to_int c)
  | _ => "Unknown"
  end.

(** The entry at position [i] is there and is null or a number. *)
Definition nullOrNumber (s : list json) (i : nat) : bool :=
  match s !! i with
  | Some JNull | Some (JNum _) => true
  | _ => false
  end.

Definition hasString (s : list json) (i : nat) : bool :=
  match s !! i with Some (JStr _) => true | _ => false end.

Definition hasBool (s : list json) (i : nat) : bool :=
  match s !! i with Some (JBool _) => true | _ => false end.

(** A record with a longitude and a latitude that lacks a string at
    positions 0, 1 or 2, a boolean at position 8, or has fewer than 11
    entries. *)
Definition malformed (s : list json) : Prop :=
  (exists v5 v6, s !! 5%nat = Some v5 /\ s !! 6%nat = Some v6 /\
                 v5 <> JNull /\ v6 <> JNull) /\
  (hasString s 0 = false \/ hasString s 1 = false \/ hasString s 2 = false \/
   hasBool s 8 = false \/ (length s < 11)%nat).

(** ** Sample data *)

(** An OpenSky state vector: icao24, callsign, origin country, time of
    position, last contact, longitude, latitude, barometric altitude,
    on-ground flag, velocity, true track, vertical rate, sensors, geometric
    altitude, squawk, spi, position source, category. *)
Definition stateVector (callsign lon lat alt vel : json) : list json :=
  [ JStr "4601f2"; callsign; JStr "Finland"; JNum 1700000000; JNum 1700000000;
    lon; lat; alt; JBool false; vel; JNum 270; JNum 0; JNull; alt;
    JStr "1234"; JBool false; JNum 0; JNum 6 ].

(** A state vector with a position and without altitude, velocity, track
    and category. *)
Definition bareVector : list json :=
  [ JStr "4601f2"; JStr "FIN123  "; JStr "Finland"; JNum 1700000000;
    JNum 1700000000; JNum 24.96; JNum 60.31; JNull; JBool false; JNull; JNull;
    JNull; JNull; JNull; JStr "1234"; JBool false; JNum 0; JNull ].

Definition sampleFlight : Flight :=
  {| Icao24 := "4601f2"; Callsign := "FIN123"; Lon := 24.96; Lat := 60.31;
     VelocityKts := 19; Heading := 270; AltitudeFt := 3280; OnGround := false;
     Origin := "Finland"; Category := "Heavy"; Destination := "" |}.

(** A client with credentials and no token, holding a snapshot taken at
    instant [0]; and three worlds whose clock shows one minute later. *)
Definition staleClient : FlightClient :=
  mkClient (mkSlice 3 [sampleFlight]) 0 "" "user" "secret".

Definition rateLimited : world :=
  mkWorld (60 * Second) (Some "tok") (Response 429 (Decoded [])) (61 * Second) 7.

Definition networkDown : world :=
  mkWorld (60 * Second) None TransportError (61 * Second) 7.

(** A world that answers with one state vector, the client after that call,
    and a world nine seconds after it was stored. *)
Definition oneFlight : world :=
  mkWorld (60 * Second) None
    (Response 200 (Decoded [stateVector (JStr "FIN123  ") (JNum 24.96)
                              (JNum 60.31) (JNum 1000) (JNum 10)]))
    (61 * Second) 7.

Definition freshClient : FlightClient :=
  mkClient (mkSlice 7 [sampleFlight]) (61 * Second) "" "user" "secret".

Definition nineSecondsLater : world :=
  mkWorld (70 * Second) None TransportError (71 * Second) 8.

Definition noTraffic : world :=
  mkWorld (60 * Second) None (Response 200 (Decoded [])) (61 * Second) 7.

(** A state vector as OpenSky sends it for an aircraft whose callsign has
    not been received. *)
Definition noCallsign : list json :=
  stateVector JNull (JNum 24.96) (JNum 60.31) (JNum 1000) (JNum 10).

Definition callsignMissing : world :=
  mkWorld (60 * Second) None (Response 200 (Decoded [noCallsign])) (61 * Second) 7.

(** The flight of a record, when the record yields one. *)
Definition flightOf (s : list json) : option Flight :=
  match parseState s with
  | Val f => Some f
  | _ => None
  end.

(** The client asks for a token when it has a client id and secret and
    holds no token. *)
Definition needsToken (fc : FlightClient) : bool :=
  negb (String.eqb (clientID fc) "") && negb (String.eqb (clientSec fc) "")
  && String.eqb (token fc) "".

(** ** Facts about the parsing loop *)

Lemma index_Val s i v : index s i = Val v <-> s !! i = Some v.
Proof. unfold index. destruct (s !! i); split; congruence. Qed.

Lemma bind_Val {A B} (m : step A) (k : A -> step B) b :
  (m ≫= k) = Val b -> exists a, m = Val a /\ k a = Val b.
Proof. destruct m; simpl; try discriminate. eauto. Qed.

Lemma bind_Continue {A B} (m : step A) (k : A -> step B) :
  (m ≫= k) = Continue -> m = Continue \/ exists a, m = Val a /\ k a = Continue.
Proof. destruct m; simpl; try discriminate; eauto. Qed.

Lemma asFloat64_Val v q : asFloat64 v = Val q <-> v = JNum q.
Proof. destruct v; simpl; split; congruence. Qed.

Lemma asString_Val v x : asString v = Val x <-> v = JStr x.
Proof. destruct v; simpl; split; congruence. Qed.

Lemma asBool_Val v b : asBool v = Val b <-> v = JBool b.
Proof. destruct v; simpl; split; congruence. Qed.

Lemma index_never_continues s i : index s i <> Continue.
Proof. unfold index. destruct (s !! i); discriminate. Qed.

Lemma asFloat64_never_continues v : asFloat64 v <> Continue.
Proof. destruct v; discriminate. Qed.

Lemma asString_never_continues v : asString v <> Continue.
Proof. destruct v; discriminate. Qed.

Lemma asBool_never_continues v : asBool v <> Continue.
Proof. destruct v; discriminate. Qed.

Lemma floatOrZero_never_continues s i : floatOrZero s i <> Continue.
Proof.
  unfold floatOrZero, index. destruct (s !! i) as [v|]; simpl; [| discriminate].
  destruct v; simpl; discriminate.
Qed.

Lemma category_never_continues s : category s <> Continue.
Proof.
  unfold category, index. destruct (17 <? length s)%nat; [| discriminate].
  destruct (s !! 17) as [v|]; [| discriminate].
  destruct v; discriminate.
Qed.

(** The value of [floatOrZero] when it yields one. *)
Lemma floatOrZero_Val s i q :
  floatOrZero s i = Val q <->
  (s !! i = Some JNull /\ q = 0%Q) \/ s !! i = Some (JNum q).
Proof.
  unfold floatOrZero, index. destruct (s !! i) as [v|]; simpl.
  - destruct v; simpl; unfold mret, step_ret; split; intros H;
      try discriminate; try (destruct H as [[H ?]|H]; congruence).
    + left. split; [done | congruence].
    + right. congruence.
  - split; [discriminate | intros [[H _]|H]; discriminate].
Qed.

(** What a record looks like when an iteration yields a flight. *)
Lemma parseState_Val s f :
  parseState s = Val f ->
  exists icao cs origin og lon lat altM velMs heading catStr,
    s !! 0 = Some (JStr icao) /\ s !! 1 = Some (JStr cs) /\
    s !! 2 = Some (JStr origin) /\ s !! 5 = Some (JNum lon) /\
    s !! 6 = Some (JNum lat) /\ s !! 8 = Some (JBool og) /\
    floatOrZero s 7 = Val altM /\ floatOrZero s 9 = Val velMs /\
    floatOrZero s 10 = Val heading /\ category s = Val catStr /\
    f = {| Icao24 := icao;
           Callsign := if String.eqb (TrimSpace cs) "" then "N/A" else TrimSpace cs;
           Lon := lon; Lat := lat;
           VelocityKts := float64_to_int (float64_mul velMs (round64 1.94384));
           Heading := heading;
           AltitudeFt := float64_to_int (float64_mul altM (round64 3.28084));
           OnGround := og; Origin := origin; Category := catStr;
           Destination := "" |}.
Proof.
  unfold parseState. intros H.
  apply bind_Val in H as (s5 & E5 & H). apply index_Val in E5.
  destruct (isNil s5) eqn:N5; [discriminate |].
  apply bind_Val in H as (s6 & E6 & H). apply index_Val in E6.
  destruct (isNil s6) eqn:N6; [discriminate |].
  apply bind_Val in H as (lon & Elon & H). apply asFloat64_Val in Elon.
  apply bind_Val in H as (lat & Elat & H). apply asFloat64_Val in Elat.
  apply bind_Val in H as (s1 & E1 & H). apply index_Val in E1.
  apply bind_Val in H as (cs & Ecs & H). apply asString_Val in Ecs.
  apply bind_Val in H as (altM & Ealt & H).
  apply bind_Val in H as (velMs & Evel & H).
  apply bind_Val in H as (heading & Ehd & H).
  apply bind_Val in H as (catStr & Ecat & H).
  apply bind_Val in H as (s0 & E0 & H). apply index_Val in E0.
  apply bind_Val in H as (icao & Eicao & H). apply asString_Val in Eicao.
  apply bind_Val in H as (s8 & E8 & H). apply index_Val in E8.
  apply bind_Val in H as (og & Eog & H). apply asBool_Val in Eog.
  apply bind_Val in H as (s2 & E2 & H). apply index_Val in E2.
  apply bind_Val in H as (origin & Eor & H). apply asString_Val in Eor.
  subst. injection H as <-.
  exists icao, cs, origin, og, lon, lat, altM, velMs, heading, catStr.
  repeat split; assumption.
Qed.

(** An iteration is left with [continue] only for a null longitude or
    latitude. *)
Lemma parseState_Continue s :
  parseState s = Continue ->
  s !! 5 = Some JNull \/ s !! 6 = Some JNull.
Proof.
  unfold parseState. intros H.
  apply bind_Continue in H as [H | (s5 & E5 & H)];
    [ by apply index_never_continues in H |].
  apply index_Val in E5.
  destruct (isNil s5) eqn:N5; [ left; by destruct s5 |].
  apply bind_Continue in H as [H | (s6 & E6 & H)];
    [ by apply index_never_continues in H |].
  apply index_Val in E6.
  destruct (isNil s6) eqn:N6; [ right; by destruct s6 |].
  exfalso.
  repeat match type of H with
         | (_ ≫= _) = Continue =>
             apply bind_Continue in H as [H | (? & _ & H)];
             [ first [ by apply index_never_continues in H
                     | by apply asFloat64_never_continues in H
                     | by apply asString_never_continues in H
                     | by apply asBool_never_continues in H
                     | by apply floatOrZero_never_continues in H
                     | by apply category_never_continues in H ] |]
         end.
  discriminate.
Qed.

Lemma authenticate_keeps_cache fc w :
  cache (authenticate fc w).1 = cache fc /\
  lastFetch (authenticate fc w).1 = lastFetch fc.
Proof.
  unfold authenticate.
  destruct (_ || _); [done |]. destruct (auth_token w); done.
Qed.

Lemma FetchFlights_fresh fc w :
  servedFromCache fc w = true ->
  FetchFlights fc w = (fc, Return (cache fc) None, []).
Proof. unfold servedFromCache, FetchFlights. by intros ->. Qed.

(** The shape of every returned error, and of every success. *)
Lemma FetchFlights_Return fc w fc' snap err sent :
  FetchFlights fc w = (fc', Return snap err, sent) ->
  match err with
  | Some _ =>
      servedFromCache fc w = false /\ snap = nilSlice /\
      cache fc' = cache fc /\ lastFetch fc' = lastFetch fc
  | None => cache fc' = snap
  end.
Proof.
  unfold FetchFlights. fold (servedFromCache fc w).
  destruct (servedFromCache fc w) eqn:Hhit.
  { intros [= <- <- <- _]. done. }
  pose proof (authenticate_keeps_cache fc w) as [Hc Hl].
  match goal with
  | |- context [if ?c then authenticate fc w else ?e] =>
      assert (cache (if c then authenticate fc w else e).1 = cache fc /\
              lastFetch (if c then authenticate fc w else e).1 = lastFetch fc)
        as [Hc1 Hl1] by (by destruct c);
      destruct (if c then authenticate fc w else e) as [fc1 sent1]
  end.
  simpl in Hc1, Hl1.
  destruct (states_reply w) as [| | status b].
  - intros [= <- <- <- _]. done.
  - intros [= <- <- <- _]. done.
  - destruct (status =? 429)%Z; [ intros [= <- <- <- _]; done |].
    destruct (negb _); [ intros [= <- <- <- _]; done |].
    destruct b as [| | states]; try (intros [= <- <- <- _]; done).
    destruct (parseStates states []) as [fl | p]; [| discriminate].
    intros [= <- <- <- _]. done.
Qed.

Lemma parseStates_panics states s p acc :
  s ∈ states -> parseState s = Panic p ->
  exists p', parseStates states acc = inr p'.
Proof.
  intros Hin Hp. revert acc.
  induction Hin as [s rest | s s' rest Hin IH]; intros acc; simpl.
  - rewrite Hp. eauto.
  - destruct (parseState s'); eauto.
Qed.

(** ** The snapshot cache *)

(** C1 (as amended). Every call of [FetchFlights] that returns an error
    returns the nil slice with it, not the cached snapshot, and leaves the
    cached snapshot and the fetch timestamp of the client as they were. *)
Theorem FetchFlights_failure_keeps_cache
    (fc fc' : FlightClient) (w : world) (snap : slice) (e : error)
    (sent : list request) :
  FetchFlights fc w = (fc', Return snap (Some e), sent) ->
  snap = nilSlice /\ cache fc' = cache fc /\ lastFetch fc' = lastFetch fc.
Proof.
  intros H. apply FetchFlights_Return in H as (_ & ? & ? & ?). done.
Qed.

Lemma FetchFlights_failure_keeps_cache_witness :
  FetchFlights staleClient rateLimited =
    (mkClient (mkSlice 3 [sampleFlight]) 0 "tok" "user" "secret",
     Return nilSlice (Some ErrRateLimit), [TokenRequest; StatesRequest "tok"]) /\
  (nilSlice = nilSlice /\
   cache (mkClient (mkSlice 3 [sampleFlight]) 0 "tok" "user" "secret")
     = cache staleClient /\
   lastFetch (mkClient (mkSlice 3 [sampleFlight]) 0 "tok" "user" "secret")
     = lastFetch staleClient).
Proof.
  split; [vm_compute; reflexivity |].
  apply (FetchFlights_failure_keeps_cache staleClient
           (mkClient (mkSlice 3 [sampleFlight]) 0 "tok" "user" "secret")
           rateLimited nilSlice ErrRateLimit [TokenRequest; StatesRequest "tok"]).
  vm_compute; reflexivity.
Defined.

(** C1, counterexample. With a stale, non-empty snapshot in the cache and
    the network down, the call returns the nil slice and not the cached
    snapshot. *)
Lemma FetchFlights_failure_returns_nil :
  FetchFlights staleClient networkDown =
    (staleClient, Return nilSlice (Some ErrTransport), [TokenRequest; StatesRequest ""]) /\
  cache staleClient = mkSlice 3 [sampleFlight] /\
  mkSlice 3 [sampleFlight] <> nilSlice.
Proof. split; [vm_compute; reflexivity | split; [reflexivity | discriminate]]. Qed.

(** Each kind of failure of a call that is not served from the cache. *)
Lemma FetchFlights_failures fc w :
  servedFromCache fc w = false ->
  match states_reply w with
  | RequestError => (FetchFlights fc w).1.2 = Return nilSlice (Some ErrRequest)
  | TransportError => (FetchFlights fc w).1.2 = Return nilSlice (Some ErrTransport)
  | Response status b =>
      if (status =? 429)%Z
      then (FetchFlights fc w).1.2 = Return nilSlice (Some ErrRateLimit)
      else if (status =? 200)%Z
      then match b with
           | ReadError => (FetchFlights fc w).1.2 = Return nilSlice (Some ErrRead)
           | Undecodable => (FetchFlights fc w).1.2 = Return nilSlice (Some ErrDecode)
           | Decoded _ => True
           end
      else (FetchFlights fc w).1.2 = Return nilSlice (Some (ErrStatus status))
  end.
Proof.
  intros Hmiss. unfold FetchFlights. fold (servedFromCache fc w). rewrite Hmiss.
  match goal with
  | |- context [if ?c then authenticate fc w else ?e] =>
      destruct (if c then authenticate fc w else e) as [fc1 sent1]
  end.
  destruct (states_reply w) as [| | status b]; try reflexivity.
  destruct (status =? 429)%Z; [reflexivity |].
  destruct (status =? 200)%Z; simpl; [| reflexivity].
  destruct b; done.
Qed.

(** C4 (as amended). After a call that returned a snapshot with at least
    one flight and no error, a call made while the fetch timestamp is
    younger than [cacheDuration] sends nothing on the network and returns
    that same slice (same backing array, same elements), leaving the client
    as it was. *)
Theorem FetchFlights_within_window
    (fc0 fc : FlightClient) (w0 w : world) (snap : slice)
    (sent0 : list request) :
  FetchFlights fc0 w0 = (fc, Return snap None, sent0) ->
  elems snap <> [] ->
  (time_Since (clock_entry w) (lastFetch fc) < cacheDuration)%Z ->
  FetchFlights fc w = (fc, Return snap None, []).
Proof.
  intros Hprev Hne Hyoung.
  apply FetchFlights_Return in Hprev. simpl in Hprev. subst snap.
  apply FetchFlights_fresh. unfold servedFromCache.
  apply andb_true_intro. split.
  - by apply Z.ltb_lt.
  - apply Nat.ltb_lt. destruct (elems (cache fc)); [done | simpl; lia].
Qed.

Lemma FetchFlights_within_window_witness :
  FetchFlights staleClient oneFlight
  = (freshClient, Return (mkSlice 7 [sampleFlight]) None,
     [TokenRequest; StatesRequest ""]) /\
  elems (mkSlice 7 [sampleFlight]) <> [] /\
  (time_Since (clock_entry nineSecondsLater) (lastFetch freshClient) < cacheDuration)%Z /\
  FetchFlights freshClient nineSecondsLater
  = (freshClient, Return (mkSlice 7 [sampleFlight]) None, []).
Proof.
  assert (H1 : FetchFlights staleClient oneFlight
               = (freshClient, Return (mkSlice 7 [sampleFlight]) None,
                  [TokenRequest; StatesRequest ""])) by (vm_compute; reflexivity).
  assert (H2 : elems (mkSlice 7 [sampleFlight]) <> []) by discriminate.
  assert (H3 : (time_Since (clock_entry nineSecondsLater) (lastFetch freshClient)
                < cacheDuration)%Z) by (vm_compute; reflexivity).
  exact (conj H1 (conj H2 (conj H3
    (FetchFlights_within_window staleClient freshClient oneFlight nineSecondsLater
       (mkSlice 7 [sampleFlight]) [TokenRequest; StatesRequest ""] H1 H2 H3)))).
Defined.

(** C4, counterexample. A successful call that found no aircraft stores the
    empty snapshot and the fetch timestamp; a call made one second later,
    inside the window, goes to the network again. *)
Lemma FetchFlights_empty_snapshot_refetched :
  FetchFlights staleClient noTraffic =
    (mkClient nilSlice (61 * Second) "" "user" "secret",
     Return nilSlice None, [TokenRequest; StatesRequest ""]) /\
  (time_Since (62 * Second) (61 * Second) < cacheDuration)%Z /\
  FetchFlights (mkClient nilSlice (61 * Second) "" "user" "secret")
    (mkWorld (62 * Second) None TransportError (63 * Second) 8)
  = (mkClient nilSlice (61 * Second) "" "user" "secret",
     Return nilSlice (Some ErrTransport), [TokenRequest; StatesRequest ""]).
Proof. split; [vm_compute; reflexivity | split; vm_compute; reflexivity]. Qed.

(** ** Parsing of state vectors *)

Lemma floatOrZero_entry s i q : floatOrZero s i = Val q -> q = entryOrZero s i.
Proof.
  intros H. apply floatOrZero_Val in H as [[H ->] | H];
    unfold entryOrZero; by rewrite H.
Qed.

Lemma floatOrZero_nullOrNumber s i q :
  floatOrZero s i = Val q -> nullOrNumber s i = true.
Proof.
  intros H. apply floatOrZero_Val in H as [[H _] | H];
    unfold nullOrNumber; by rewrite H.
Qed.

Lemma category_nullOrNumber s c :
  category s = Val c -> (length s <= 17)%nat \/ nullOrNumber s 17 = true.
Proof.
  unfold category, nullOrNumber, index.
  destruct (17 <? length s)%nat eqn:Hlen.
  - destruct (s !! 17%nat) as [v|]; [| discriminate].
    destruct v; try discriminate; by right.
  - apply Nat.ltb_ge in Hlen. by left.
Qed.

Lemma category_label s c : category s = Val c -> c = categoryLabel s.
Proof.
  unfold category, categoryLabel, index.
  destruct (17 <? length s)%nat eqn:Hlen.
  - destruct (s !! 17%nat) as [v|]; [| discriminate].
    destruct v; try discriminate; by intros [= <-].
  - apply Nat.ltb_ge in Hlen.
    rewrite (lookup_ge_None_2 s 17) by lia. by intros [= <-].
Qed.

(** A record with the entries the loop asserts, and with a null or a
    number where it tests for null, yields a flight. *)
Lemma parseState_yields s icao cs origin og lon lat :
  s !! 0%nat = Some (JStr icao) -> s !! 1%nat = Some (JStr cs) ->
  s !! 2%nat = Some (JStr origin) ->
  s !! 5%nat = Some (JNum lon) -> s !! 6%nat = Some (JNum lat) ->
  s !! 8%nat = Some (JBool og) ->
  nullOrNumber s 7 = true -> nullOrNumber s 9 = true ->
  nullOrNumber s 10 = true ->
  (length s <= 17)%nat \/ nullOrNumber s 17 = true ->
  parseState s
  = Val {| Icao24 := icao;
           Callsign := if String.eqb (TrimSpace cs) "" then "N/A" else TrimSpace cs;
           Lon := lon; Lat := lat;
           VelocityKts :=
             float64_to_int (float64_mul (entryOrZero s 9) (round64 1.94384));
           Heading := entryOrZero s 10;
           AltitudeFt :=
             float64_to_int (float64_mul (entryOrZero s 7) (round64 3.28084));
           OnGround := og; Origin := origin; Category := categoryLabel s;
           Destination := "" |}.
Proof.
  intros E0 E1 E2 E5 E6 E8 N7 N9 N10 N17.
  assert (Hf : forall i, nullOrNumber s i = true ->
                         floatOrZero s i = Val (entryOrZero s i)).
  { intros i Hi. unfold nullOrNumber, floatOrZero, index, entryOrZero in *.
    destruct (s !! i) as [[| | | | |] |]; try discriminate; reflexivity. }
  assert (Hc : category s = Val (categoryLabel s)).
  { unfold category, categoryLabel, index, nullOrNumber in *.
    destruct (17 <? length s)%nat eqn:Hlen.
    - apply Nat.ltb_lt in Hlen. destruct N17 as [N17 | N17]; [lia |].
      destruct (s !! 17%nat) as [[| | | | |] |]; try discriminate; reflexivity.
    - apply Nat.ltb_ge in Hlen. by rewrite (lookup_ge_None_2 s 17) by lia. }
  unfold parseState, index.
  rewrite E5, E6, E1, E0, E8, E2. cbn [mbind step_bind isNil asFloat64 asString asBool].
  rewrite (Hf 7%nat N7), (Hf 9%nat N9), (Hf 10%nat N10), Hc.
  reflexivity.
Qed.

(** For altitudes up to 2^20 m and speeds up to 2^20 m/s the rounded
    products differ from the decimal products by less than 2^-29. *)
Lemma conversion_near x :
  (- 1048576 <= x <= 1048576)%Q ->
  (x * 3.28084 - (1 # 536870912) <= float64_mul x (round64 3.28084)
   <= x * 3.28084 + (1 # 536870912))%Q /\
  (x * 1.94384 - (1 # 536870912) <= float64_mul x (round64 1.94384)
   <= x * 1.94384 + (1 # 536870912))%Q.
Proof.
  intros Hx. unfold float64_mul.
  let c := eval vm_compute in (round64 3.28084) in
    change (round64 3.28084) with c.
  let c := eval vm_compute in (round64 1.94384) in
    change (round64 1.94384) with c.
  split.
  - match goal with |- context [round64 ?y] => rounded H y 22%Z end.
    split; Lqa.lra.
  - match goal with |- context [round64 ?y] => rounded H y 21%Z end.
    split; Lqa.lra.
Qed.

(** C8 (as amended). A state vector whose longitude or latitude entry is
    null is dropped.  A state vector with a longitude and a latitude, with
    strings and a boolean where the loop asserts them, and with a null or
    a number for altitude, velocity, track and category yields a flight:
    longitude and latitude are the numbers of the vector; a null altitude,
    velocity or track counts as zero; a null or absent category entry, or
    a code outside the table, gives the label "Unknown"; the altitude is
    multiplied by 3.28084 and the velocity by 1.94384 in [float64], and the
    product is converted to an integer by truncation towards zero, which
    within the range of [int] is the floor for the non-negative values and
    the ceiling for the negative ones, so that 0 gives 0, 1000 m gives
    3280 ft and 10 m/s gives 19 kt.  Every vector that yields a flight is
    of that kind. *)
Theorem parseState_normalises :
  (forall s v5 v6,
      s !! 5%nat = Some v5 -> s !! 6%nat = Some v6 ->
      v5 = JNull \/ v6 = JNull -> parseState s = Continue) /\
  (forall s icao cs origin og lon lat,
      s !! 0%nat = Some (JStr icao) -> s !! 1%nat = Some (JStr cs) ->
      s !! 2%nat = Some (JStr origin) ->
      s !! 5%nat = Some (JNum lon) -> s !! 6%nat = Some (JNum lat) ->
      s !! 8%nat = Some (JBool og) ->
      nullOrNumber s 7 = true -> nullOrNumber s 9 = true ->
      nullOrNumber s 10 = true ->
      (length s <= 17)%nat \/ nullOrNumber s 17 = true ->
      parseState s
      = Val {| Icao24 := icao;
               Callsign :=
                 if String.eqb (TrimSpace cs) "" then "N/A" else TrimSpace cs;
               Lon := lon; Lat := lat;
               VelocityKts :=
                 float64_to_int (float64_mul (entryOrZero s 9) (round64 1.94384));
               Heading := entryOrZero s 10;
               AltitudeFt :=
                 float64_to_int (float64_mul (entryOrZero s 7) (round64 3.28084));
               OnGround := og; Origin := origin; Category := categoryLabel s;
               Destination := "" |}) /\
  (forall s f,
      parseState s = Val f ->
      s !! 5%nat = Some (JNum (Lon f)) /\ s !! 6%nat = Some (JNum (Lat f)) /\
      nullOrNumber s 7 = true /\ nullOrNumber s 9 = true /\
      nullOrNumber s 10 = true /\
      ((length s <= 17)%nat \/ nullOrNumber s 17 = true) /\
      AltitudeFt f
      = float64_to_int (float64_mul (entryOrZero s 7) (round64 3.28084)) /\
      VelocityKts f
      = float64_to_int (float64_mul (entryOrZero s 9) (round64 1.94384)) /\
      Heading f = entryOrZero s 10 /\
      Category f = categoryLabel s) /\
  (forall s i, s !! i = Some JNull -> entryOrZero s i = 0%Q) /\
  (forall s i q, s !! i = Some (JNum q) -> entryOrZero s i = q) /\
  (forall s, (length s <= 17)%nat \/ s !! 17%nat = Some JNull ->
             categoryLabel s = "Unknown") /\
  (forall s c, s !! 17%nat = Some (JNum c) ->
               categoryLabel s
               = default "Unknown" (categoryMap !! float64_to_int c)) /\
  (forall x, (0 <= x <= inject_Z maxInt)%Q -> float64_to_int x = Qfloor x) /\
  (forall x, (inject_Z minInt <= x <= 0)%Q -> float64_to_int x = Qceiling x) /\
  (forall x, (- 1048576 <= x <= 1048576)%Q ->
             (x * 3.28084 - (1 # 536870912) <= float64_mul x (round64 3.28084)
              <= x * 3.28084 + (1 # 536870912))%Q /\
             (x * 1.94384 - (1 # 536870912) <= float64_mul x (round64 1.94384)
              <= x * 1.94384 + (1 # 536870912))%Q) /\
  float64_to_int (float64_mul 0 (round64 3.28084)) = 0%Z /\
  float64_to_int (float64_mul 1000 (round64 3.28084)) = 3280%Z /\
  float64_to_int (float64_mul 10 (round64 1.94384)) = 19%Z.
Proof.
  split; [| split; [| split; [| split; [| split; [| split; [| split; [| split;
    [| split; [| split; [| split; [| split]]]]]]]]]]];
    [ | | | | | | | | | | vm_compute; reflexivity | vm_compute; reflexivity
    | vm_compute; reflexivity ].
  - intros s v5 v6 E5 E6 Hnull. unfold parseState, index. rewrite E5. simpl.
    destruct (isNil v5) eqn:N5; [reflexivity |].
    rewrite E6. simpl.
    destruct Hnull as [-> | ->]; [discriminate | reflexivity].
  - apply parseState_yields.
  - intros s f H.
    apply parseState_Val in H
      as (icao & cs & origin & og & lon & lat & altM & velMs & heading & catStr
          & E0 & E1 & E2 & E5 & E6 & E8 & Ealt & Evel & Ehd & Ecat & ->).
    cbn [Lon Lat AltitudeFt VelocityKts Heading Category].
    rewrite <- (floatOrZero_entry _ _ _ Ealt), <- (floatOrZero_entry _ _ _ Evel),
      <- (floatOrZero_entry _ _ _ Ehd), <- (category_label _ _ Ecat).
    repeat split; try done.
    + by apply (floatOrZero_nullOrNumber _ _ _ Ealt).
    + by apply (floatOrZero_nullOrNumber _ _ _ Evel).
    + by apply (floatOrZero_nullOrNumber _ _ _ Ehd).
    + by apply (category_nullOrNumber _ _ Ecat).
  - intros s i H. unfold entryOrZero. by rewrite H.
  - intros s i q H. unfold entryOrZero. by rewrite H.
  - intros s [H | H]; unfold categoryLabel.
    + by rewrite (lookup_ge_None_2 s 17) by lia.
    + by rewrite H.
  - intros s c H. unfold categoryLabel. by rewrite H.
  - apply float64_to_int_nonneg.
  - apply float64_to_int_nonpos.
  - apply conversion_near.
Qed.

Lemma parseState_normalises_witness :
  bareVector !! 0%nat = Some (JStr "4601f2") /\
  nullOrNumber bareVector 7 = true /\
  parseState bareVector
  = Val (mkFlight "4601f2" "FIN123" 24.96 60.31 0 0 0 false "Finland"
                  "Unknown" "").
Proof.
  split; [reflexivity |]. split; [reflexivity |].
  exact (proj1 (proj2 parseState_normalises) bareVector "4601f2" "FIN123  "
           "Finland" false 24.96%Q 60.31%Q eq_refl eq_refl eq_refl eq_refl
           eq_refl eq_refl eq_refl eq_refl eq_refl (or_intror eq_refl)).
Defined.

(** C8, counterexample. An altitude of -1 m gives -3 ft, while the floor of
    -3.28084 is -4. *)
Lemma parseState_negative_altitude_not_floored :
  parseState (stateVector (JStr "FIN123  ") (JNum 24.96) (JNum 60.31)
                          (JNum (-1)) (JNum 10))
  = Val (mkFlight "4601f2" "FIN123" 24.96 60.31 19 270 (-3) false "Finland"
                  "Heavy" "") /\
  Qfloor (-1 * 3.28084) = (-4)%Z.
Proof. split; vm_compute; reflexivity. Qed.

(** The rounding of the products is that of binary64: the model and the
    kernel's floating-point numbers give the same number of feet and of
    knots, also where the rounded product reaches an integer that the
    decimal product does not: 0x1.381d7d17b7b6dp-2 m is 1 ft, and
    0x1.8b182088e1b85p+0 m/s is 3 kt. *)
Lemma feet_as_binary64 :
  Forall (fun x => float64_to_int (float64_mul (Binary64.toQ x) (round64 3.28084))
                   = Binary64.feet x /\
                   float64_to_int (float64_mul (Binary64.toQ x) (round64 1.94384))
                   = Binary64.knots x)
         [ Binary64.ofZ 0; Binary64.ofZ 10; Binary64.ofZ 1000;
           Binary64.ofZ 11277; Binary64.literal 30485 100;
           Binary64.literal 1 3; Binary64.literal 2315 10;
           Binary64.literal 5490788489984877 18014398509481984;
           Binary64.literal 6950571488451461 4503599627370496 ] /\
  round64 3.28084 = Binary64.toQ (Binary64.literal 328084 100000) /\
  round64 1.94384 = Binary64.toQ (Binary64.literal 194384 100000) /\
  Binary64.feet (Binary64.literal 5490788489984877 18014398509481984) = 1%Z /\
  Qfloor (Binary64.toQ (Binary64.literal 5490788489984877 18014398509481984)
          * 3.28084) = 0%Z /\
  Binary64.knots (Binary64.literal 6950571488451461 4503599627370496) = 3%Z /\
  Qfloor (Binary64.toQ (Binary64.literal 6950571488451461 4503599627370496)
          * 1.94384) = 2%Z.
Proof.
  split; [| repeat split; vm_compute; reflexivity].
  repeat constructor; vm_compute; reflexivity.
Qed.

(** ** Panics of the parsing loop *)

Lemma parseState_malformed s : malformed s -> exists p, parseState s = Panic p.
Proof.
  intros [(v5 & v6 & E5 & E6 & N5 & N6) Hbad].
  destruct (parseState s) as [f | | p] eqn:E; [| | eauto].
  - exfalso.
    apply parseState_Val in E
      as (icao & cs & origin & og & lon & lat & altM & velMs & heading & catStr
          & E0 & E1 & E2 & _ & _ & E8 & _ & _ & Ehd & _ & _).
    unfold hasString, hasBool in Hbad. rewrite E0, E1, E2, E8 in Hbad.
    destruct Hbad as [H | [H | [H | [H | H]]]]; try discriminate.
    apply floatOrZero_Val in Ehd as [[Ehd _] | Ehd];
      apply lookup_lt_Some in Ehd; lia.
  - exfalso. apply parseState_Continue in E as [E | E]; congruence.
Qed.

(** C10. When a call of [FetchFlights] is not served from the cache and the
    remote answers 200 with a decodable body in which some record has a
    non-null longitude and latitude but no string as transponder id,
    callsign or origin country, no boolean as on-ground flag, or fewer than
    11 entries, the call panics: it neither drops the record nor returns an
    error.  The cache and the fetch timestamp are as before. *)
Theorem FetchFlights_panics_on_malformed_record
    (fc : FlightClient) (w : world) (states : list (list json)) (s : list json) :
  servedFromCache fc w = false ->
  states_reply w = Response 200 (Decoded states) ->
  s ∈ states ->
  malformed s ->
  exists fc' p sent,
    FetchFlights fc w = (fc', Panics p, sent) /\
    cache fc' = cache fc /\ lastFetch fc' = lastFetch fc.
Proof.
  intros Hmiss Hreply Hin Hbad.
  apply parseState_malformed in Hbad as [p Hp].
  destruct (parseStates_panics states s p [] Hin Hp) as [p' Hp'].
  unfold FetchFlights. fold (servedFromCache fc w). rewrite Hmiss, Hreply.
  match goal with
  | |- context [if ?c then authenticate fc w else ?e] =>
      assert (cache (if c then authenticate fc w else e).1 = cache fc /\
              lastFetch (if c then authenticate fc w else e).1 = lastFetch fc)
        as [Hc1 Hl1]
        by (pose proof (authenticate_keeps_cache fc w); by destruct c);
      destruct (if c then authenticate fc w else e) as [fc1 sent1]
  end.
  simpl in Hc1, Hl1. simpl. rewrite Hp'. eauto 10.
Qed.

Lemma noCallsign_malformed : malformed noCallsign.
Proof.
  split.
  - exists (JNum 24.96), (JNum 60.31). repeat split; discriminate || reflexivity.
  - right. left. reflexivity.
Defined.

Lemma FetchFlights_panics_on_malformed_record_witness :
  exists fc' p sent,
    FetchFlights staleClient callsignMissing = (fc', Panics p, sent) /\
    cache fc' = cache staleClient /\ lastFetch fc' = lastFetch staleClient.
Proof.
  apply (FetchFlights_panics_on_malformed_record staleClient callsignMissing
           [noCallsign] noCallsign).
  - vm_compute; reflexivity.
  - reflexivity.
  - apply list_elem_of_here.
  - exact noCallsign_malformed.
Defined.

Example FetchFlights_null_callsign :
  FetchFlights staleClient callsignMissing
  = (staleClient, Panics InterfaceConversion, [TokenRequest; StatesRequest ""]).
Proof. vm_compute; reflexivity. Qed.

Example parseState_short_record :
  parseState [JStr "4601f2"; JStr "FIN123"; JStr "Finland"; JNull; JNull;
              JNum 24.96; JNum 60.31; JNum 1000; JBool false; JNum 10]
  = Panic IndexOutOfRange.
Proof. vm_compute; reflexivity. Qed.

(** ** More on the client *)

(** No flight of a snapshot has an empty callsign: a callsign that is
    blank after trimming is replaced by "N/A". *)
Theorem parseState_callsign_not_empty (s : list json) (f : Flight) :
  parseState s = Val f -> Callsign f <> "".
Proof.
  intros H.
  apply parseState_Val in H
    as (icao & cs & origin & og & lon & lat & altM & velMs & heading & catStr
        & _ & _ & _ & _ & _ & _ & _ & _ & _ & _ & ->).
  simpl. destruct (String.eqb (TrimSpace cs) "") eqn:E; [discriminate |].
  by apply String.eqb_neq.
Qed.

Lemma parseState_callsign_not_empty_witness :
  parseState (stateVector (JStr "   ") (JNum 24.96) (JNum 60.31) (JNum 1000) (JNum 10))
  = Val (mkFlight "4601f2" "N/A" 24.96 60.31 19 270 3280 false "Finland" "Heavy" "") /\
  Callsign (mkFlight "4601f2" "N/A" 24.96 60.31 19 270 3280 false "Finland" "Heavy" "")
  <> "".
Proof.
  assert (H : parseState (stateVector (JStr "   ") (JNum 24.96) (JNum 60.31)
                            (JNum 1000) (JNum 10))
              = Val (mkFlight "4601f2" "N/A" 24.96 60.31 19 270 3280 false
                              "Finland" "Heavy" ""))
    by (vm_compute; reflexivity).
  exact (conj H (parseState_callsign_not_empty _ _ H)).
Defined.

(** The loop ends without a panic exactly when no record panics; the
    flights are then those of the records that yield one, in the order of
    the records. *)
Theorem parseStates_flights (states : list (list json)) (acc fl : list Flight) :
  parseStates states acc = inl fl <->
  (forall s p, s ∈ states -> parseState s <> Panic p) /\
  fl = acc ++ omap flightOf states.
Proof.
  revert acc. induction states as [| s rest IH]; intros acc; simpl.
  - rewrite app_nil_r. split.
    + intros [= <-]. split; [| done]. intros s p Hin. by apply elem_of_nil in Hin.
    + by intros [_ ->].
  - unfold flightOf at 1. destruct (parseState s) as [f | | p] eqn:E.
    + rewrite IH. simpl. rewrite <- app_assoc. simpl. split.
      * intros [Hno ->]. split; [| done].
        intros s' p' [-> | Hin]%elem_of_cons; [congruence | by apply Hno].
      * intros [Hno ->]. split; [| done].
        intros s' p' Hin. apply Hno. by right.
    + rewrite IH. simpl. split.
      * intros [Hno ->]. split; [| done].
        intros s' p' [-> | Hin]%elem_of_cons; [congruence | by apply Hno].
      * intros [Hno ->]. split; [| done].
        intros s' p' Hin. apply Hno. by right.
    + split; [discriminate |].
      intros [Hno _]. exfalso. apply (Hno s p); [by left | done].
Qed.

(** A call that reaches the remote, is answered 200 with a decodable body
    and parses it without a panic returns the parsed flights with no
    error, stores them as the cached snapshot and sets the fetch timestamp
    to the clock reading taken after parsing. *)
Theorem FetchFlights_success
    (fc : FlightClient) (w : world) (states : list (list json)) (fl : list Flight) :
  servedFromCache fc w = false ->
  states_reply w = Response 200 (Decoded states) ->
  parseStates states [] = inl fl ->
  exists fc' snap sent,
    FetchFlights fc w = (fc', Return snap None, sent) /\
    elems snap = fl /\
    (fl <> [] -> base snap = fresh_array w) /\
    cache fc' = snap /\
    lastFetch fc' = clock_exit w /\
    clientID fc' = clientID fc /\ clientSec fc' = clientSec fc.
Proof.
  intros Hmiss Hreply Hparse.
  unfold FetchFlights. fold (servedFromCache fc w). rewrite Hmiss, Hreply.
  match goal with
  | |- context [if ?c then authenticate fc w else ?e] =>
      assert (clientID (if c then authenticate fc w else e).1 = clientID fc /\
              clientSec (if c then authenticate fc w else e).1 = clientSec fc)
        as [Hid Hsec]
        by (destruct c; [| done]; unfold authenticate;
            destruct (_ || _); [done |]; by destruct (auth_token w));
      destruct (if c then authenticate fc w else e) as [fc1 sent1]
  end.
  simpl in Hid, Hsec. simpl. rewrite Hparse.
  eexists _, _, _. split; [reflexivity |].
  simpl. repeat split; try done; by destruct fl.
Qed.

Lemma FetchFlights_success_witness :
  exists fc' snap sent,
    FetchFlights staleClient oneFlight = (fc', Return snap None, sent) /\
    elems snap = [sampleFlight] /\
    ([sampleFlight] <> [] -> base snap = fresh_array oneFlight) /\
    cache fc' = snap /\
    lastFetch fc' = clock_exit oneFlight /\
    clientID fc' = clientID staleClient /\ clientSec fc' = clientSec staleClient.
Proof.
  apply (FetchFlights_success staleClient oneFlight
           [stateVector (JStr "FIN123  ") (JNum 24.96) (JNum 60.31) (JNum 1000)
                        (JNum 10)] [sampleFlight]).
  - vm_compute; reflexivity.
  - reflexivity.
  - vm_compute; reflexivity.
Defined.

(** Authentication never aborts a fetch.  A call that is not served from
    the cache sends one token request exactly when the client has an id
    and a secret and holds no token, and then, whatever the answer to it,
    the request for the states, which carries the token the client holds
    afterwards: the granted one, or the one it had. *)
Theorem FetchFlights_requests (fc : FlightClient) (w : world) :
  servedFromCache fc w = false ->
  states_reply w <> RequestError ->
  let fc' := (FetchFlights fc w).1.1 in
  (FetchFlights fc w).2
  = (if needsToken fc then [TokenRequest] else []) ++ [StatesRequest (token fc')] /\
  token fc' = (if needsToken fc then default (token fc) (auth_token w) else token fc).
Proof.
  intros Hmiss Hreq. unfold FetchFlights. fold (servedFromCache fc w).
  rewrite Hmiss. unfold needsToken, authenticate.
  destruct (String.eqb (clientID fc) ""), (String.eqb (clientSec fc) ""),
    (String.eqb (token fc) ""), (auth_token w) as [tok |];
    cbn [negb andb orb default];
    (destruct (states_reply w) as [| | status b]; [done | done |]);
    (destruct (status =? 429)%Z; [done |]);
    (destruct (negb (status =? 200)%Z); [done |]);
    (destruct b as [| | states]; [done | done |]);
    by destruct (parseStates states []).
Qed.

Lemma FetchFlights_requests_witness :
  servedFromCache staleClient rateLimited = false /\
  (FetchFlights staleClient rateLimited).2
  = (if needsToken staleClient then [TokenRequest] else [])
    ++ [StatesRequest (token (FetchFlights staleClient rateLimited).1.1)].
Proof.
  assert (H : servedFromCache staleClient rateLimited = false)
    by (vm_compute; reflexivity).
  split; [exact H |].
  exact (proj1 (FetchFlights_requests staleClient rateLimited H
                  ltac:(discriminate))).
Defined.

End Flights.

(** * go_version/tiles.go *)
Module TilesEbiten.

Abbreviation TileKey := (Z * Z * Z)%type.

(** An [*ebiten.Image], by the identity of the image. *)
Definition Image : Type := N.

(** A goroutine running [fetchTile]: before its look at the cache, or with
    its HTTP request on the network. *)
Inductive phase : Type :=
| Started
| Fetching.

#[export] Instance phase_eq_dec : EqDecision phase.
Proof. solve_decision. Defined.

(** The loader, the goroutines it has launched that have not returned, and
    the GET requests issued so far. *)
Record TileLoader : Type := mkLoader {
  cache : gmap TileKey Image;
  goroutines : list (TileKey * phase);
  requests : list TileKey
}.

Definition NewTileLoader : TileLoader := mkLoader ∅ [] [].

(** [GetTile]: a cached image is returned; otherwise [nil], and a goroutine
    is launched. *)
Definition GetTile (tl : TileLoader) (key : TileKey) : TileLoader * option Image :=
  match cache tl !! key with
  | Some img => (tl, Some img)
  | None =>
      (mkLoader (cache tl) (goroutines tl ++ [(key, Started)]) (requests tl), None)
  end.

(** What the network and [image.Decode] give a goroutine. *)
Inductive reply : Type :=
| GetError
| DecodeError
| Png (img : Image).

(** One move of goroutine [i] of [fetchTile]: from [Started] it looks at
    the cache and returns on a hit, or issues its GET; from [Fetching] it
    receives [r] and stores the image, or returns on an error. *)
Definition fetchTile (tl : TileLoader) (i : nat) (r : reply) : TileLoader :=
  match goroutines tl !! i with
  | None => tl
  | Some (key, Started) =>
      match cache tl !! key with
      | Some _ => mkLoader (cache tl) (delete i (goroutines tl)) (requests tl)
      | None =>
          mkLoader (cache tl) (<[i := (key, Fetching)]> (goroutines tl))
                   (requests tl ++ [key])
      end
  | Some (key, Fetching) =>
      match r with
      | Png img =>
          mkLoader (<[key := img]> (cache tl)) (delete i (goroutines tl))
                   (requests tl)
      | _ => mkLoader (cache tl) (delete i (goroutines tl)) (requests tl)
      end
  end.

(** Number of fetches of [key] on the network. *)
Definition inFlight (tl : TileLoader) (key : TileKey) : nat :=
  length (filter (λ g, g = (key, Fetching)) (goroutines tl)).

(** Two lookups of one tile, then the two goroutines up to their GET. *)
Definition twoLookups (tl : TileLoader) (key : TileKey) : TileLoader :=
  let tl1 := (GetTile tl key).1 in
  let tl2 := (GetTile tl1 key).1 in
  let tl3 := fetchTile tl2 (length (goroutines tl)) GetError in
  fetchTile tl3 (S (length (goroutines tl))) GetError.

(** A lookup of a tile that is not cached always launches a goroutine,
    whatever is in flight. *)
Lemma GetTile_miss_launches tl key :
  cache tl !! key = None ->
  GetTile tl key =
    (mkLoader (cache tl) (goroutines tl ++ [(key, Started)]) (requests tl), None).
Proof. unfold GetTile. by intros ->. Qed.

(** C2, evaluated on go_version/tiles.go. Two lookups of the tile (10, 583,
    296) on a new loader, before any image is stored, put two GET requests
    for that tile on the network: there is no pending set, and the second
    look at the cache in [fetchTile] only sees stored images. *)
Theorem GetTile_twice_fetches_twice :
  inFlight (twoLookups NewTileLoader (10, 583, 296)%Z) (10, 583, 296)%Z = 2%nat /\
  requests (twoLookups NewTileLoader (10, 583, 296)%Z)
  = [(10, 583, 296)%Z; (10, 583, 296)%Z].
Proof. split; vm_compute; reflexivity. Qed.

(** A goroutine that finds no image in the cache issues its GET. *)
Lemma fetchTile_issues_request tl i key r :
  goroutines tl !! i = Some (key, Started) ->
  cache tl !! key = None ->
  fetchTile tl i r =
    mkLoader (cache tl) (<[i := (key, Fetching)]> (goroutines tl))
             (requests tl ++ [key]).
Proof. unfold fetchTile. by intros -> ->. Qed.

Lemma twoLookups_miss tl key :
  cache tl !! key = None ->
  twoLookups tl key =
    mkLoader (cache tl) (goroutines tl ++ [(key, Fetching); (key, Fetching)])
             (requests tl ++ [key; key]).
Proof.
  intros Hmiss. unfold twoLookups. cbv zeta.
  rewrite (GetTile_miss_launches tl key Hmiss). cbn [fst].
  rewrite (GetTile_miss_launches (mkLoader _ _ _) key Hmiss).
  cbn [fst cache goroutines requests].
  set (gs := goroutines tl).
  rewrite (fetchTile_issues_request (mkLoader _ _ _) (length gs) key); cycle 1.
  { cbn [goroutines]. rewrite <- app_assoc, lookup_app_r by lia.
    by rewrite Nat.sub_diag. }
  { exact Hmiss. }
  cbn [cache goroutines requests].
  rewrite (fetchTile_issues_request (mkLoader _ _ _) (S (length gs)) key); cycle 1.
  { cbn [goroutines]. rewrite <- app_assoc, insert_app_r_alt by lia.
    rewrite Nat.sub_diag. rewrite lookup_app_r by lia.
    by replace (S (length gs) - length gs)%nat with 1%nat by lia. }
  { exact Hmiss. }
  cbn [cache goroutines requests]. f_equal.
  - rewrite <- app_assoc, insert_app_r_alt by lia. rewrite Nat.sub_diag.
    rewrite insert_app_r_alt by lia.
    by replace (S (length gs) - length gs)%nat with 1%nat by lia.
  - by rewrite <- app_assoc.
Qed.

(** The same for every tile that is not cached and every loader: the two
    lookups add two fetches of the tile to those in flight. *)
Lemma GetTile_twice_fetches_twice_general tl key :
  cache tl !! key = None ->
  requests (twoLookups tl key) = requests tl ++ [key; key] /\
  (inFlight (twoLookups tl key) key = 2 + inFlight tl key)%nat.
Proof.
  intros Hmiss. rewrite (twoLookups_miss tl key Hmiss).
  split; [reflexivity |].
  unfold inFlight. cbn [goroutines].
  rewrite filter_app, length_app.
  rewrite !filter_cons_True by done. simpl. lia.
Qed.

(** ** More on the loader *)

(** A cached tile stays cached through every lookup and every move of a
    goroutine, and a lookup of it returns its image without launching
    anything. *)
Theorem cache_entries_persist (tl : TileLoader) (k : TileKey) :
  is_Some (cache tl !! k) ->
  (forall key, is_Some (cache (GetTile tl key).1 !! k)) /\
  (forall i r, is_Some (cache (fetchTile tl i r) !! k)) /\
  GetTile tl k = (tl, cache tl !! k).
Proof.
  intros Hk. split; [| split].
  - intros key. unfold GetTile. by destruct (cache tl !! key).
  - intros i r. unfold fetchTile.
    destruct (goroutines tl !! i) as [[key [|]] |]; [| | done].
    + by destruct (cache tl !! key).
    + destruct r as [| | img]; [done | done |]. simpl.
      destruct (decide (key = k)) as [-> | Hne].
      * rewrite lookup_insert_eq. by eexists.
      * by rewrite lookup_insert_ne.
  - unfold GetTile. by destruct Hk as [img ->].
Qed.

Lemma cache_entries_persist_witness :
  is_Some (cache (mkLoader {[ (10, 583, 296)%Z := 7%N ]} [] []) !! (10, 583, 296)%Z) /\
  GetTile (mkLoader {[ (10, 583, 296)%Z := 7%N ]} [] []) (10, 583, 296)%Z
  = (mkLoader {[ (10, 583, 296)%Z := 7%N ]} [] [],
     cache (mkLoader {[ (10, 583, 296)%Z := 7%N ]} [] []) !! (10, 583, 296)%Z).
Proof.
  assert (H : is_Some (cache (mkLoader {[ (10, 583, 296)%Z := 7%N ]} [] [])
                       !! (10, 583, 296)%Z))
    by (exists 7%N; vm_compute; reflexivity).
  exact (conj H (proj2 (proj2 (cache_entries_persist _ _ H)))).
Defined.



End TilesEbiten.

(** * go_raylib/tiles.go *)
Module TilesRaylib.

Abbreviation TileKey := (Z * Z * Z)%type.

(** An [rl.Texture2D], by its id. *)
Definition Texture : Type := N.

(** The bytes of a response, by what [rl.LoadImageFromMemory] makes of
    them: a texture, or no image (width 0). *)
Record TileResponse : Type := mkResponse {
  Key : TileKey;
  Data : option Texture
}.

(** The loader and its goroutines: those of [fetchTile] whose GET is on the
    network, and those that hold a body and wait at the channel send. *)
Record TileLoader : Type := mkLoader {
  cache : gmap TileKey Texture;
  pending : gset TileKey;
  responseChan : list TileResponse;
  fetching : list TileKey;
  sending : list TileResponse
}.

Definition NewTileLoader : TileLoader := mkLoader ∅ ∅ [] [] [].

(** Capacity of [responseChan]. *)
Definition chanCap : nat := 10.

(** [GetTile]: the cached texture; otherwise the empty texture, and a
    goroutine is launched unless the key is pending. *)
Definition GetTile (tl : TileLoader) (key : TileKey) : TileLoader * option Texture :=
  match cache tl !! key with
  | Some tex => (tl, Some tex)
  | None =>
      if decide (key ∈ pending tl) then (tl, None)
      else (mkLoader (cache tl) ({[key]} ∪ pending tl) (responseChan tl)
                     (fetching tl ++ [key]) (sending tl), None)
  end.

(** [fetchTile], goroutine [i], when the GET or the reading of the body
    fails: the pending flag is cleared. *)
Definition fetchTile_error (tl : TileLoader) (i : nat) : TileLoader :=
  match fetching tl !! i with
  | None => tl
  | Some key =>
      mkLoader (cache tl) (pending tl ∖ {[key]}) (responseChan tl)
               (delete i (fetching tl)) (sending tl)
  end.

(** [fetchTile], goroutine [i], when the body has been read: it reaches
    the channel send. *)
Definition fetchTile_body (tl : TileLoader) (i : nat) (data : option Texture)
  : TileLoader :=
  match fetching tl !! i with
  | None => tl
  | Some key =>
      mkLoader (cache tl) (pending tl) (responseChan tl)
               (delete i (fetching tl)) (sending tl ++ [mkResponse key data])
  end.

(** The send of waiting goroutine [j] goes through when the channel has
    room. *)
Definition fetchTile_send (tl : TileLoader) (j : nat) : TileLoader :=
  match sending tl !! j with
  | None => tl
  | Some resp =>
      if (length (responseChan tl) <? chanCap)%nat
      then mkLoader (cache tl) (pending tl) (responseChan tl ++ [resp])
                    (fetching tl) (delete j (sending tl))
      else tl
  end.

(** The body of the loop of [Update] for one response. *)
Definition store (cp : gmap TileKey Texture * gset TileKey) (resp : TileResponse)
  : gmap TileKey Texture * gset TileKey :=
  match Data resp with
  | None => cp
  | Some tex => (<[Key resp := tex]> cp.1, cp.2 ∖ {[Key resp]})
  end.

(** [Update] drains the channel. *)
Definition Update (tl : TileLoader) : TileLoader :=
  let cp := foldl store (cache tl, pending tl) (responseChan tl) in
  mkLoader cp.1 cp.2 [] (fetching tl) (sending tl).

Definition Unload (tl : TileLoader) : TileLoader :=
  mkLoader ∅ (pending tl) (responseChan tl) (fetching tl) (sending tl).

(** What can happen to a loader. *)
Inductive event : Type :=
| Lookup (key : TileKey)
| FetchError (i : nat)
| FetchBody (i : nat) (data : option Texture)
| Send (j : nat)
| Drain
| Release.

Definition step (tl : TileLoader) (e : event) : TileLoader :=
  match e with
  | Lookup key => (GetTile tl key).1
  | FetchError i => fetchTile_error tl i
  | FetchBody i data => fetchTile_body tl i data
  | Send j => fetchTile_send tl j
  | Drain => Update tl
  | Release => Unload tl
  end.

Definition run (es : list event) : TileLoader := foldl step NewTileLoader es.

(** Keys of the goroutines that have not delivered, and of the responses
    in the channel. *)
Definition undelivered (tl : TileLoader) : list TileKey :=
  fetching tl ++ (Key <$> sending tl) ++ (Key <$> responseChan tl).

(** Each such key occurs once and is pending. *)
Definition wf (tl : TileLoader) : Prop :=
  NoDup (undelivered tl) /\ forall key, key ∈ undelivered tl -> key ∈ pending tl.

(** A tile that is flagged pending with nothing on its way: no goroutine
    fetches it, no response for it waits, and it is not cached. *)
Definition stuck (tl : TileLoader) (key : TileKey) : Prop :=
  (key ∈ pending tl) /\ (key ∉ undelivered tl) /\ cache tl !! key = None.

Lemma store_pending cp resps key :
  key ∈ cp.2 -> key ∉ Key <$> resps -> key ∈ (foldl store cp resps).2.
Proof.
  revert cp. induction resps as [| r resps IH]; intros cp Hin Hnot; [done |].
  simpl. apply IH.
  - unfold store. destruct (Data r); [| done]. simpl.
    rewrite fmap_cons in Hnot. set_solver.
  - rewrite fmap_cons in Hnot. set_solver.
Qed.

Lemma delete_lookup_perm {A} (l : list A) i x :
  l !! i = Some x -> l ≡ₚ x :: delete i l.
Proof. intros H. by apply delete_Permutation. Qed.

Lemma perm_to_sending {A} (D S C : list A) k :
  D ++ (S ++ [k]) ++ C ≡ₚ (k :: D) ++ S ++ C.
Proof.
  simpl. symmetry. rewrite <- (app_assoc S [k] C). simpl.
  rewrite (app_assoc D S (k :: C)).
  apply Permutation_cons_app. by rewrite app_assoc.
Qed.

Lemma perm_to_chan {A} (F S C : list A) r :
  F ++ S ++ (C ++ [r]) ≡ₚ F ++ (r :: S) ++ C.
Proof.
  apply Permutation_app_head. simpl. symmetry.
  rewrite (app_assoc S C [r]).
  apply Permutation_cons_app. by rewrite app_nil_r.
Qed.

Lemma wf_step tl e : wf tl -> wf (step tl e).
Proof.
  intros [Hnd Hp]. unfold wf, undelivered in *.
  destruct e as [key | i | i data | j | |]; simpl.
  - unfold GetTile. destruct (cache tl !! key); [done |].
    destruct (decide (key ∈ pending tl)) as [Hin | Hnotin]; [done |].
    simpl. split.
    + rewrite <- app_assoc.
      apply NoDup_app in Hnd as (Hf & Hdisj & Hrest).
      apply NoDup_app. split; [done |]. split.
      * intros x Hx Hx'. apply elem_of_cons in Hx' as [-> | Hx'].
        -- apply Hnotin, Hp. set_solver.
        -- by apply (Hdisj x).
      * apply NoDup_cons. split; [| done].
        intros Hx. apply Hnotin, Hp. set_solver.
    + intros k Hk. rewrite <- app_assoc in Hk.
      apply elem_of_app in Hk as [Hk | Hk]; [set_solver |].
      apply elem_of_cons in Hk as [-> | Hk]; set_solver.
  - unfold fetchTile_error. destruct (fetching tl !! i) as [key |] eqn:Hi; [| done].
    simpl. pose proof (delete_lookup_perm _ _ _ Hi) as Hperm.
    rewrite Hperm in Hnd. simpl in Hnd. apply NoDup_cons in Hnd as [Hfresh Hnd].
    split; [done |].
    intros k Hk. apply elem_of_difference. split.
    + apply Hp. rewrite Hperm. set_solver.
    + intros ->%elem_of_singleton. done.
  - unfold fetchTile_body. destruct (fetching tl !! i) as [key |] eqn:Hi; [| done].
    simpl. pose proof (delete_lookup_perm _ _ _ Hi) as Hperm.
    assert (Hp' : delete i (fetching tl)
                  ++ (Key <$> sending tl ++ [mkResponse key data])
                  ++ (Key <$> responseChan tl)
                  ≡ₚ fetching tl ++ (Key <$> sending tl)
                     ++ (Key <$> responseChan tl)).
    { rewrite Hperm at 2. rewrite fmap_app. simpl. apply perm_to_sending. }
    split.
    + by rewrite Hp'.
    + intros k Hk. apply Hp. by rewrite <- Hp'.
  - unfold fetchTile_send. destruct (sending tl !! j) as [resp |] eqn:Hj; [| done].
    destruct (length (responseChan tl) <? chanCap)%nat; [| done].
    simpl. pose proof (delete_lookup_perm _ _ _ Hj) as Hperm.
    assert (Hp' : fetching tl ++ (Key <$> delete j (sending tl))
                  ++ (Key <$> responseChan tl ++ [resp])
                  ≡ₚ fetching tl ++ (Key <$> sending tl)
                     ++ (Key <$> responseChan tl)).
    { rewrite Hperm at 2. rewrite fmap_app, fmap_cons. simpl.
      apply (perm_to_chan (fetching tl)). }
    split.
    + by rewrite Hp'.
    + intros k Hk. apply Hp. by rewrite <- Hp'.
  - unfold Update. simpl. rewrite app_nil_r.
    rewrite app_assoc in Hnd. apply NoDup_app in Hnd as (Hnd & Hdisj & _).
    split; [done |].
    intros k Hk. apply store_pending; simpl.
    + apply Hp. set_solver.
    + intros Hk'. by apply (Hdisj k).
  - done.
Qed.

Lemma wf_run es : wf (run es).
Proof.
  unfold run. induction es as [| e es IH] using rev_ind.
  - split; [constructor | set_solver].
  - rewrite foldl_app. simpl. by apply wf_step.
Qed.

(** In every state the loader reaches, no tile has two fetches on the
    network. *)
Lemma fetching_NoDup es : NoDup (fetching (run es)).
Proof.
  destruct (wf_run es) as [Hnd _]. unfold undelivered in Hnd.
  by apply NoDup_app in Hnd as (? & _ & _).
Qed.

(** In every state the loader reaches, a lookup of a tile whose fetch is on
    the network, or whose response has not been drained, launches nothing
    and changes nothing. *)
Lemma GetTile_dedupes es key :
  key ∈ undelivered (run es) ->
  cache (run es) !! key = None ->
  GetTile (run es) key = (run es, None).
Proof.
  intros Hin Hmiss. destruct (wf_run es) as [_ Hp].
  unfold GetTile. rewrite Hmiss.
  destruct (decide (key ∈ pending (run es))) as [_ | Hn]; [done |].
  exfalso. by apply Hn, Hp.
Qed.

Example lookups_dedupe :
  fetching (run [Lookup (10, 583, 296)%Z; Lookup (10, 583, 296)%Z])
  = [(10, 583, 296)%Z].
Proof. vm_compute; reflexivity. Qed.

(** ** More on the loader *)

(** At most one fetch per tile is on the network in every state the
    loader reaches, and a lookup of a tile that is being fetched, or whose
    response has not been drained, changes nothing. *)
Theorem GetTile_single_flight (es : list event) (key : TileKey) :
  NoDup (fetching (run es)) /\
  (key ∈ undelivered (run es) -> (GetTile (run es) key).1 = run es).
Proof.
  split; [apply fetching_NoDup |].
  intros Hin. destruct (wf_run es) as [_ Hp].
  unfold GetTile. destruct (cache (run es) !! key); [done |].
  destruct (decide (key ∈ pending (run es))) as [_ | Hn]; [done |].
  exfalso. by apply Hn, Hp.
Qed.

Lemma chan_bounded_step tl e :
  (length (responseChan tl) <= chanCap)%nat ->
  (length (responseChan (step tl e)) <= chanCap)%nat.
Proof.
  intros H. destruct e as [key | i | i data | j | |]; simpl; try done.
  - unfold GetTile. destruct (cache tl !! key); [done |].
    by destruct (decide _).
  - unfold fetchTile_error. by destruct (fetching tl !! i).
  - unfold fetchTile_body. by destruct (fetching tl !! i).
  - unfold fetchTile_send. destruct (sending tl !! j); [| done].
    destruct (length (responseChan tl) <? chanCap)%nat eqn:Hroom; [| done].
    apply Nat.ltb_lt in Hroom. simpl. rewrite length_app. simpl. lia.
  - unfold chanCap. lia.
Qed.

(** The channel never holds more than ten responses. *)
Theorem responseChan_bounded (es : list event) :
  (length (responseChan (run es)) <= 10)%nat.
Proof.
  unfold run. induction es as [| e es IH] using rev_ind.
  - simpl. lia.
  - rewrite foldl_app. simpl. by apply chan_bounded_step.
Qed.

Lemma store_other cp resps key :
  key ∉ Key <$> resps ->
  (foldl store cp resps).1 !! key = cp.1 !! key.
Proof.
  revert cp. induction resps as [| r resps IH]; intros cp Hnot; [done |].
  rewrite fmap_cons in Hnot. apply not_elem_of_cons in Hnot as [Hne Hnot].
  simpl. rewrite IH by done.
  unfold store. destruct (Data r); [| done]. simpl.
  by rewrite lookup_insert_ne.
Qed.

Lemma elem_of_delete_list {A} (l : list A) i x : x ∈ delete i l -> x ∈ l.
Proof. intros H. eapply elem_of_sublist; [exact H | apply sublist_delete]. Qed.

Lemma stuck_step tl e key : stuck tl key -> stuck (step tl e) key.
Proof.
  intros (Hp & Hu & Hc). unfold stuck, undelivered in *.
  destruct e as [k | i | i data | j | |]; simpl.
  - unfold GetTile. destruct (cache tl !! k) eqn:Hk; [done |].
    destruct (decide (k ∈ pending tl)) as [? | Hn]; [done |]. simpl.
    assert (k <> key) by congruence.
    split; [set_solver | split; [set_solver | done]].
  - unfold fetchTile_error. destruct (fetching tl !! i) as [k |] eqn:Hi; [| done].
    simpl. assert (Hkin : k ∈ fetching tl) by (by eapply list_elem_of_lookup_2).
    assert (k <> key) by (intros ->; apply Hu; set_solver).
    split; [set_solver | split; [| done]].
    intros Hin. apply Hu. rewrite !elem_of_app in *.
    destruct Hin as [Hin | Hin]; [| tauto].
    left. by eapply elem_of_delete_list.
  - unfold fetchTile_body. destruct (fetching tl !! i) as [k |] eqn:Hi; [| done].
    simpl. assert (Hkin : k ∈ fetching tl) by (by eapply list_elem_of_lookup_2).
    assert (k <> key) by (intros ->; apply Hu; set_solver).
    split; [done | split; [| done]].
    intros Hin. apply Hu. rewrite fmap_app in Hin. rewrite !elem_of_app in *.
    destruct Hin as [Hin | [[Hin | Hin] | Hin]]; try tauto.
    + left. by eapply elem_of_delete_list.
    + simpl in Hin. apply list_elem_of_singleton in Hin. congruence.
  - unfold fetchTile_send. destruct (sending tl !! j) as [resp |] eqn:Hj; [| done].
    destruct (length (responseChan tl) <? chanCap)%nat; [| done]. simpl.
    assert (Hrin : Key resp ∈ Key <$> sending tl).
    { apply list_elem_of_fmap. exists resp. split; [done |].
      by eapply list_elem_of_lookup_2. }
    split; [done | split; [| done]].
    intros Hin. apply Hu. rewrite fmap_app in Hin. rewrite !elem_of_app in *.
    destruct Hin as [Hin | [Hin | [Hin | Hin]]]; try tauto.
    + right. left. apply list_elem_of_fmap in Hin as (r & -> & Hr).
      apply list_elem_of_fmap. exists r. split; [done |].
      by eapply elem_of_delete_list.
    + simpl in Hin. apply list_elem_of_singleton in Hin. rewrite Hin. tauto.
  - unfold Update. simpl.
    assert (Hnot : key ∉ Key <$> responseChan tl) by set_solver.
    split; [| split].
    + by apply store_pending.
    + rewrite app_nil_r. set_solver.
    + by rewrite store_other.
  - split; [done | split; [done | apply lookup_empty]].
Qed.

(** Draining a channel in which the response for a tile is undecodable
    neither clears the flag of the tile nor caches it. *)
Lemma store_undecodable rs key cp :
  mkResponse key None ∈ rs -> NoDup (Key <$> rs) ->
  key ∈ cp.2 -> cp.1 !! key = None ->
  (key ∈ (foldl store cp rs).2) /\ (foldl store cp rs).1 !! key = None.
Proof.
  revert cp. induction rs as [| r rs IH]; intros cp Hin Hnd Hp Hc.
  { by apply elem_of_nil in Hin. }
  rewrite fmap_cons in Hnd. apply NoDup_cons in Hnd as [Hfresh Hnd].
  simpl. apply elem_of_cons in Hin as [<- | Hin].
  - simpl in *. split; [by apply store_pending | by rewrite store_other].
  - assert (Hne : Key r <> key).
    { intros <-. apply Hfresh. apply list_elem_of_fmap.
      by exists (mkResponse (Key r) None). }
    apply IH; [done | done | |].
    + unfold store. destruct (Data r); [| done]. simpl. set_solver.
    + unfold store. destruct (Data r); [| done]. simpl.
      by rewrite lookup_insert_ne.
Qed.

(** A tile whose response does not decode is left pending by [Update]:
    from then on it is never cached and never fetched again, whatever
    happens, and every lookup of it returns the empty texture. *)
Theorem undecodable_tile_never_retried
    (es es' : list event) (key : TileKey) :
  mkResponse key None ∈ responseChan (run es) ->
  cache (run es) !! key = None ->
  let tl := foldl step (Update (run es)) es' in
  cache tl !! key = None /\ (key ∉ fetching tl) /\ GetTile tl key = (tl, None).
Proof.
  intros Hin Hmiss tl.
  destruct (wf_run es) as [Hnd Hp]. unfold undelivered in *.
  assert (Hkey : key ∈ Key <$> responseChan (run es)).
  { apply list_elem_of_fmap. by exists (mkResponse key None). }
  assert (Hst : stuck (Update (run es)) key).
  { rewrite app_assoc in Hnd. apply NoDup_app in Hnd as (_ & Hdisj & Hchan).
    destruct (store_undecodable (responseChan (run es)) key
                (cache (run es), pending (run es)) Hin Hchan) as [H1 H2];
      [apply Hp; set_solver | done |].
    unfold stuck, undelivered, Update. simpl. rewrite app_nil_r.
    split; [done | split; [| done]].
    intros Hk. by apply (Hdisj key). }
  assert (Hst' : stuck tl key).
  { subst tl. clear -Hst. induction es' as [| e es' IH] using rev_ind; [done |].
    rewrite foldl_app. simpl. by apply stuck_step. }
  destruct Hst' as (Hp' & Hu' & Hc').
  split; [done |]. split.
  - intros Hf. apply Hu'. unfold undelivered. set_solver.
  - unfold GetTile. rewrite Hc'. by destruct (decide (key ∈ pending tl)).
Qed.

Lemma undecodable_tile_never_retried_witness :
  mkResponse (10, 583, 296)%Z None
    ∈ responseChan (run [Lookup (10, 583, 296)%Z; FetchBody 0 None; Send 0]) /\
  GetTile (foldl step
             (Update (run [Lookup (10, 583, 296)%Z; FetchBody 0 None; Send 0]))
             [Release; Lookup (10, 583, 296)%Z]) (10, 583, 296)%Z
  = (foldl step
       (Update (run [Lookup (10, 583, 296)%Z; FetchBody 0 None; Send 0]))
       [Release; Lookup (10, 583, 296)%Z], None).
Proof.
  assert (H1 : mkResponse (10, 583, 296)%Z None
               ∈ responseChan (run [Lookup (10, 583, 296)%Z; FetchBody 0 None; Send 0]))
    by (vm_compute; apply list_elem_of_here).
  split; [exact H1 |].
  exact (proj2 (proj2 (undecodable_tile_never_retried
                         [Lookup (10, 583, 296)%Z; FetchBody 0 None; Send 0]
                         [Release; Lookup (10, 583, 296)%Z] (10, 583, 296)%Z
                         H1 eq_refl))).
Defined.

(** After a fetch that fails on the network the tile can be fetched
    again: the next lookup of it launches a new fetch. *)
Theorem fetch_error_allows_retry (es : list event) (i : nat) (key : TileKey) :
  fetching (run es) !! i = Some key ->
  cache (run es) !! key = None ->
  fetching (GetTile (fetchTile_error (run es) i) key).1
  = delete i (fetching (run es)) ++ [key].
Proof.
  intros Hi Hmiss. destruct (wf_run es) as [Hnd Hp].
  unfold fetchTile_error. rewrite Hi. unfold GetTile. simpl. rewrite Hmiss.
  destruct (decide _) as [Hin | _]; [| done]. exfalso. set_solver.
Qed.

Lemma fetch_error_allows_retry_witness :
  fetching (run [Lookup (10, 583, 296)%Z]) !! 0%nat = Some (10, 583, 296)%Z /\
  fetching (GetTile (fetchTile_error (run [Lookup (10, 583, 296)%Z]) 0)
                    (10, 583, 296)%Z).1
  = delete 0%nat (fetching (run [Lookup (10, 583, 296)%Z])) ++ [(10, 583, 296)%Z].
Proof.
  split; [reflexivity |].
  apply (fetch_error_allows_retry [Lookup (10, 583, 296)%Z] 0 (10, 583, 296)%Z);
    reflexivity.
Defined.

End TilesRaylib.

(** * go_raylib/scraper.go *)
Module Scraper.

Record ResolvedDetails : Type := mkDetails {
  Destination : string;
  RealDestination : string;
  Model : string;
  Origin : string
}.

(** [v.(map[string]interface{})] in its comma-ok form, where a failed
    assertion leaves the nil map; [m[k]] on a map, nil for a missing key. *)
Definition asObject (v : option json) : gmap string json :=
  match v with
  | Some (JObj m) => m
  | _ => ∅
  end.

(** [v.(string)] in its comma-ok form. *)
Definition asString (v : option json) : option string :=
  match v with
  | Some (JStr s) => Some s
  | _ => None
  end.

(** The details read from the latest activity-log entry. *)
Definition detailsOf (latest : gmap string json) : ResolvedDetails :=
  let destData := asObject (latest !! "destination") in
  let aircraftData := asObject (latest !! "aircraft") in
  let originData := asObject (latest !! "origin") in
  let destName :=
    match asString (destData !! "friendlyLocation") with
    | Some v => v
    | None =>
        match asString (destData !! "iata") with
        | Some v => v
        | None => ""
        end
    end in
  let model :=
    match asString (aircraftData !! "friendlyType") with
    | Some v => v
    | None =>
        match asString (aircraftData !! "type") with
        | Some v => v
        | None => ""
        end
    end in
  let originName :=
    match asString (originData !! "friendlyLocation") with
    | Some v => v
    | None => ""
    end in
  mkDetails destName destName model originName.

(** The first entry of the activity log of one flight, when the flight
    data has that shape; the loop goes on to the next flight otherwise. *)
Definition latestOf (flightData : json) : option (gmap string json) :=
  match flightData with
  | JObj fd =>
      match fd !! "activityLog" with
      | Some (JObj actLog) =>
          match actLog !! "flights" with
          | Some (JArr (JObj latest :: _)) => Some latest
          | _ => None
          end
      | _ => None
      end
  | _ => None
  end.

(** The loop over the flights, in the order [range] visits them. *)
Fixpoint firstDetails (visited : list json) : option ResolvedDetails :=
  match visited with
  | [] => None
  | flightData :: rest =>
      match latestOf flightData with
      | Some latest => Some (detailsOf latest)
      | None => firstDetails rest
      end
  end.

Inductive error : Type :=
| ErrRequest
| ErrStatus (status : Z)
| ErrNoData
| ErrParse
| ErrNoFlights
| ErrNotFound.

(** What the site answers: a failed request, or a status and, for the body,
    what the regular expression finds ([None]: no match) and what
    [json.Unmarshal] makes of the match ([None]: invalid). *)
Inductive page : Type :=
| RequestFailed
| Answer (status : Z) (bootstrap : option (option (gmap string json))).

(** [FetchFlightDetails]. The order in which [range] visits the values of
    the map of flights is not specified: [visit] gives it. *)
Definition FetchFlightDetails
    (visit : gmap string json -> list json) (p : page)
  : ResolvedDetails + error :=
  match p with
  | RequestFailed => inr ErrRequest
  | Answer status bootstrap =>
      if negb (status =? 200)%Z then inr (ErrStatus status)
      else
        match bootstrap with
        | None => inr ErrNoData
        | Some None => inr ErrParse
        | Some (Some data) =>
            match data !! "flights" with
            | Some (JObj flightsData) =>
                match firstDetails (visit flightsData) with
                | Some d => inl d
                | None => inr ErrNotFound
                end
            | _ => inr ErrNoFlights
            end
        end
  end.

(** An order of visit that [range] can take. *)
Definition visits (visit : gmap string json -> list json) : Prop :=
  forall m, visit m ≡ₚ (map_to_list m).*2.

(** ** Sample data *)

Definition airport (friendly iata : option string) : json :=
  JObj (list_to_map
          (match friendly with Some f => [("friendlyLocation", JStr f)] | None => [] end
           ++ match iata with Some i => [("iata", JStr i)] | None => [] end)).

(** An entry whose destination and origin carry an IATA code and no
    friendly location, and whose aircraft carries a type code only. *)
Definition codesOnly : gmap string json :=
  list_to_map
    [ ("destination", airport None (Some "ARN"));
      ("origin", airport None (Some "HEL"));
      ("aircraft", JObj (list_to_map [("type", JStr "A320")])) ].

(** The order of [map_to_list], one order that [range] can take. *)
Definition inListOrder (m : gmap string json) : list json := (map_to_list m).*2.

(** A page that carries the bootstrap object [data]. *)
Definition pageOf (data : gmap string json) : page := Answer 200 (Some (Some data)).

(** A flight whose activity log has [latest] as first entry. *)
Definition flightWith (latest : gmap string json) : json :=
  JObj {[ "activityLog" := JObj {[ "flights" := JArr [JObj latest] ]} ]}.

(** The flights of a page: one without an activity log between two whose
    first log entries differ and give the same details. *)
Definition threeFlights : gmap string json :=
  <[ "AY123" := flightWith codesOnly ]>
    (<[ "AY124" := JObj ∅ ]>
       {[ "AY125" := flightWith (<[ "status" := JStr "landed" ]> codesOnly) ]}).

(** ** The fields read by the resolver *)

(** Destination and model: the friendly field when it is a string, else
    the code when it is a string, else the empty string. *)
Lemma detailsOf_destination latest :
  let destData := asObject (latest !! "destination") in
  Destination (detailsOf latest)
  = default (default "" (asString (destData !! "iata")))
            (asString (destData !! "friendlyLocation")) /\
  RealDestination (detailsOf latest) = Destination (detailsOf latest).
Proof.
  simpl. split; [| reflexivity].
  by destruct (asString (asObject (latest !! "destination") !! "friendlyLocation")),
    (asString (asObject (latest !! "destination") !! "iata")).
Qed.

Lemma detailsOf_model latest :
  let aircraftData := asObject (latest !! "aircraft") in
  Model (detailsOf latest)
  = default (default "" (asString (aircraftData !! "type")))
            (asString (aircraftData !! "friendlyType")).
Proof.
  simpl.
  by destruct (asString (asObject (latest !! "aircraft") !! "friendlyType")),
    (asString (asObject (latest !! "aircraft") !! "type")).
Qed.

(** The origin is the friendly location when it is a string and the empty
    string otherwise: the IATA code is not read. *)
Lemma detailsOf_origin latest :
  Origin (detailsOf latest)
  = default "" (asString (asObject (latest !! "origin") !! "friendlyLocation")).
Proof.
  simpl.
  by destruct (asString (asObject (latest !! "origin") !! "friendlyLocation")).
Qed.

(** C7, evaluated. For an entry whose destination and origin both have an
    IATA code and no friendly location, the destination falls back to its
    code and the origin is the empty string: the fallback to the IATA code
    is written for the destination and is missing for the origin. *)
Theorem detailsOf_origin_without_fallback :
  detailsOf codesOnly = mkDetails "ARN" "ARN" "A320" "".
Proof. vm_compute; reflexivity. Qed.

(** ** The choice among several flights *)

Lemma firstDetails_None visited :
  firstDetails visited = None <-> forall fd, fd ∈ visited -> latestOf fd = None.
Proof.
  induction visited as [| fd rest IH]; simpl.
  - split; [| done]. intros _ fd Hin. by apply elem_of_nil in Hin.
  - destruct (latestOf fd) as [latest |] eqn:E.
    + split; [discriminate |]. intros H.
      specialize (H fd ltac:(by left)). congruence.
    + rewrite IH. split.
      * intros H fd' [-> | Hin]%elem_of_cons; [done | by apply H].
      * intros H fd' Hin. apply H. by right.
Qed.

Lemma firstDetails_Some visited d :
  firstDetails visited = Some d ->
  exists fd latest, fd ∈ visited /\ latestOf fd = Some latest /\ d = detailsOf latest.
Proof.
  induction visited as [| fd rest IH]; simpl; [discriminate |].
  destruct (latestOf fd) as [latest |] eqn:E.
  - intros [= <-]. exists fd, latest. split; [by left | done].
  - intros H. destruct (IH H) as (fd' & latest & Hin & Hl & Hd).
    exists fd', latest. split; [by right | done].
Qed.

Lemma visits_elem_of visit (m : gmap string json) fd :
  visits visit -> fd ∈ visit m <-> exists k, m !! k = Some fd.
Proof.
  intros Hv. rewrite (Hv m). rewrite list_elem_of_fmap. split.
  - intros ([k v] & -> & Hin). exists k. by apply elem_of_map_to_list in Hin.
  - intros [k Hk]. exists (k, fd). split; [done |]. by apply elem_of_map_to_list.
Qed.

(** Whatever the order of the visit, the resolver fails with "details not
    found" exactly when no flight of the page has a usable activity log,
    and details it returns are those of the first log entry of some
    flight of the page. *)
Theorem FetchFlightDetails_found
    (visit : gmap string json -> list json) (data flightsData : gmap string json) :
  visits visit ->
  data !! "flights" = Some (JObj flightsData) ->
  (FetchFlightDetails visit (pageOf data) = inr ErrNotFound <->
   forall k fd, flightsData !! k = Some fd -> latestOf fd = None) /\
  (forall d, FetchFlightDetails visit (pageOf data) = inl d ->
             exists k fd latest,
               flightsData !! k = Some fd /\ latestOf fd = Some latest /\
               d = detailsOf latest).
Proof.
  intros Hv Hf. unfold FetchFlightDetails, pageOf. simpl. rewrite Hf. split.
  - destruct (firstDetails (visit flightsData)) as [d |] eqn:E.
    + split; [discriminate |]. intros Hnone. exfalso.
      apply firstDetails_Some in E as (fd & latest & Hin & Hl & _).
      apply (visits_elem_of visit flightsData fd Hv) in Hin as [k Hk].
      specialize (Hnone k fd Hk). congruence.
    + split; [| done]. intros _ k fd Hk.
      apply firstDetails_None with (fd := fd) in E; [done |].
      apply (visits_elem_of visit flightsData fd Hv). by exists k.
  - intros d. destruct (firstDetails (visit flightsData)) as [d' |] eqn:E;
      [| discriminate].
    intros [= <-].
    apply firstDetails_Some in E as (fd & latest & Hin & Hl & Hd).
    apply (visits_elem_of visit flightsData fd Hv) in Hin as [k Hk].
    by exists k, fd, latest.
Qed.

Lemma inListOrder_visits : visits inListOrder.
Proof. intros m. reflexivity. Qed.

Lemma FetchFlightDetails_found_witness :
  visits inListOrder /\
  ({[ "flights" := JObj {[ "AY123" := flightWith codesOnly ]} ]}
     : gmap string json) !! "flights"
  = Some (JObj {[ "AY123" := flightWith codesOnly ]}) /\
  forall d,
    FetchFlightDetails inListOrder
      (pageOf {[ "flights" := JObj {[ "AY123" := flightWith codesOnly ]} ]})
    = inl d ->
    exists k fd latest,
      ({[ "AY123" := flightWith codesOnly ]} : gmap string json) !! k = Some fd /\
      latestOf fd = Some latest /\ d = detailsOf latest.
Proof.
  split; [exact inListOrder_visits |]. split; [reflexivity |].
  exact (proj2 (FetchFlightDetails_found inListOrder
                  {[ "flights" := JObj {[ "AY123" := flightWith codesOnly ]} ]}
                  {[ "AY123" := flightWith codesOnly ]}
                  inListOrder_visits eq_refl)).
Defined.

(** When all usable flights of a page give the same details (in
    particular when only one flight is usable), the result does not depend
    on the order in which the flights are visited. *)
Theorem FetchFlightDetails_order_independent
    (visit1 visit2 : gmap string json -> list json)
    (data flightsData : gmap string json) :
  visits visit1 -> visits visit2 ->
  data !! "flights" = Some (JObj flightsData) ->
  (forall k k' fd fd' latest latest',
      flightsData !! k = Some fd -> flightsData !! k' = Some fd' ->
      latestOf fd = Some latest -> latestOf fd' = Some latest' ->
      detailsOf latest = detailsOf latest') ->
  FetchFlightDetails visit1 (pageOf data) = FetchFlightDetails visit2 (pageOf data).
Proof.
  intros Hv1 Hv2 Hf Hsame. unfold FetchFlightDetails, pageOf. simpl. rewrite Hf.
  set (m := flightsData) in *.
  destruct (firstDetails (visit1 m)) as [d1 |] eqn:E1,
           (firstDetails (visit2 m)) as [d2 |] eqn:E2; [| | | done].
  - apply firstDetails_Some in E1 as (fd1 & l1 & Hin1 & Hl1 & ->).
    apply firstDetails_Some in E2 as (fd2 & l2 & Hin2 & Hl2 & ->).
    apply (visits_elem_of visit1 m fd1 Hv1) in Hin1 as [k1 Hk1].
    apply (visits_elem_of visit2 m fd2 Hv2) in Hin2 as [k2 Hk2].
    f_equal. by eapply (Hsame k1 k2 fd1 fd2 l1 l2).
  - exfalso. apply firstDetails_Some in E1 as (fd1 & l1 & Hin1 & Hl1 & _).
    apply (visits_elem_of visit1 m fd1 Hv1) in Hin1 as [k1 Hk1].
    rewrite firstDetails_None in E2.
    rewrite (E2 fd1) in Hl1; [done |].
    apply (visits_elem_of visit2 m fd1 Hv2). by exists k1.
  - exfalso. apply firstDetails_Some in E2 as (fd2 & l2 & Hin2 & Hl2 & _).
    apply (visits_elem_of visit2 m fd2 Hv2) in Hin2 as [k2 Hk2].
    rewrite firstDetails_None in E1.
    rewrite (E1 fd2) in Hl2; [done |].
    apply (visits_elem_of visit1 m fd2 Hv1). by exists k2.
Qed.

Lemma FetchFlightDetails_order_independent_witness :
  visits inListOrder /\ visits (λ m, reverse (inListOrder m)) /\
  inListOrder threeFlights <> reverse (inListOrder threeFlights) /\
  FetchFlightDetails inListOrder (pageOf {[ "flights" := JObj threeFlights ]})
  = FetchFlightDetails (λ m, reverse (inListOrder m))
      (pageOf {[ "flights" := JObj threeFlights ]}).
Proof.
  assert (H1 : visits inListOrder) by exact inListOrder_visits.
  assert (H2 : visits (λ m, reverse (inListOrder m))).
  { intros m. unfold inListOrder. by rewrite reverse_Permutation. }
  split; [exact H1 |]. split; [exact H2 |].
  split; [by vm_compute |].
  apply (FetchFlightDetails_order_independent inListOrder
           (λ m, reverse (inListOrder m))
           {[ "flights" := JObj threeFlights ]} threeFlights H1 H2);
    [reflexivity |].
  assert (Hall : forall k fd latest,
             threeFlights !! k = Some fd -> latestOf fd = Some latest ->
             detailsOf latest = detailsOf codesOnly).
  { intros k fd latest Hk Hl. unfold threeFlights in Hk.
    apply lookup_insert_Some in Hk as [[_ <-] | [_ Hk]];
      [| apply lookup_insert_Some in Hk as [[_ <-] | [_ Hk]];
         [| apply lookup_singleton_Some in Hk as [_ <-]]].
    - vm_compute in Hl. injection Hl as <-. reflexivity.
    - vm_compute in Hl. discriminate Hl.
    - assert (Hl' : latestOf (flightWith (<[ "status" := JStr "landed" ]> codesOnly))
                    = Some (<[ "status" := JStr "landed" ]> codesOnly))
        by (vm_compute; reflexivity).
      rewrite Hl' in Hl. injection Hl as <-. vm_compute. reflexivity. }
  intros k k' fd fd' latest latest' Hk Hk' Hl Hl'.
  by rewrite (Hall k fd latest), (Hall k' fd' latest').
Defined.

End Scraper.

(** * go_version/data.go: the airport list *)
Module Airports.

(** The file [airports.json]: absent, unreadable, holding something that
    [json.Unmarshal] rejects (with what it leaves in the slice), or holding
    a list of strings. *)
Inductive file : Type :=
| Missing
| Unreadable
| Garbled (partial : list string)
| Stored (airports : list string).

(** [LoadAirports]: the list, or [None] for an error. *)
Definition LoadAirports (f : file) : option (list string) :=
  match f with
  | Missing => Some []
  | Unreadable => None
  | Garbled _ => None
  | Stored airports => Some airports
  end.

(** [sort.Strings]: increasing byte order. *)
Fixpoint insertSorted (x : string) (l : list string) : list string :=
  match l with
  | [] => [x]
  | y :: l' => if String.leb x y then x :: l else y :: insertSorted x l'
  end.

Definition sortStrings (l : list string) : list string :=
  foldr insertSorted [] l.

(** What [SaveAirport] reads: [os.ReadFile] and [json.Unmarshal] with
    their errors ignored. *)
Definition contents (f : file) : list string :=
  match f with
  | Stored l => l
  | Garbled l => l
  | _ => []
  end.

(** [SaveAirport]. A write that fails is taken to leave the file as it
    was. *)
Definition SaveAirport (f : file) (city : string) (written : bool) : file :=
  if String.eqb city "" || String.eqb city "Unknown" || String.eqb city "N/A"
  then f
  else
    let airports := contents f in
    if bool_decide (city ∈ airports) then f
    else if written then Stored (sortStrings (airports ++ [city])) else f.

(** The names [SaveAirport] refuses. *)
Definition refused (city : string) : Prop :=
  city = "" \/ city = "Unknown" \/ city = "N/A".

Lemma insertSorted_perm x l : insertSorted x l ≡ₚ x :: l.
Proof.
  induction l as [| y l IH]; simpl; [done |].
  destruct (String.leb x y); [done |].
  rewrite IH. apply Permutation_swap.
Qed.

Lemma sortStrings_perm l : sortStrings l ≡ₚ l.
Proof.
  induction l as [| x l IH]; simpl; [done |].
  by rewrite insertSorted_perm, IH.
Qed.

(** Saving keeps the stored names distinct, and never stores the empty
    name, "Unknown" or "N/A". *)
Lemma SaveAirport_NoDup f city written :
  NoDup (contents f) -> NoDup (contents (SaveAirport f city written)).
Proof.
  intros Hnd. unfold SaveAirport.
  destruct (_ || _); [done |]. cbv zeta.
  destruct (bool_decide (city ∈ contents f)) eqn:Hin; [done |].
  destruct written; [| done].
  simpl. rewrite sortStrings_perm.
  apply bool_decide_eq_false in Hin.
  apply NoDup_app. split; [done |]. split.
  - intros x Hx ->%list_elem_of_singleton. done.
  - apply NoDup_singleton.
Qed.

Lemma refused_spec city :
  String.eqb city "" || String.eqb city "Unknown" || String.eqb city "N/A" = true
  <-> refused city.
Proof.
  unfold refused. rewrite !orb_true_iff, !String.eqb_eq. tauto.
Qed.

(** A list without duplicates and without refused names stays one through
    every save. *)
Theorem SaveAirport_keeps_list_clean (f : file) (city : string) (written : bool) :
  NoDup (contents f) ->
  (forall x, x ∈ contents f -> ~ refused x) ->
  NoDup (contents (SaveAirport f city written)) /\
  (forall x, x ∈ contents (SaveAirport f city written) -> ~ refused x).
Proof.
  intros Hnd Hclean. split; [by apply SaveAirport_NoDup |].
  unfold SaveAirport.
  destruct (_ || _) eqn:Href; [done |]. cbv zeta.
  destruct (bool_decide (city ∈ contents f)); [done |].
  destruct written; [| done]. simpl.
  intros x Hx. rewrite sortStrings_perm in Hx.
  apply elem_of_app in Hx as [Hx | ->%list_elem_of_singleton]; [by apply Hclean |].
  intros Hr. apply refused_spec in Hr. congruence.
Qed.

Lemma SaveAirport_keeps_list_clean_witness :
  NoDup (contents Missing) /\
  NoDup (contents (SaveAirport Missing "Oslo" true)).
Proof.
  assert (H : NoDup (contents Missing)) by apply NoDup_nil_2.
  split; [exact H |].
  apply (SaveAirport_keeps_list_clean Missing "Oslo" true H).
  intros x Hx. by apply elem_of_nil in Hx.
Defined.

Lemma SaveAirport_refused f city written :
  refused city -> SaveAirport f city written = f.
Proof. intros Hr. unfold SaveAirport. apply refused_spec in Hr. by rewrite Hr. Qed.

Lemma SaveAirport_present f city written :
  city ∈ contents f -> SaveAirport f city written = f.
Proof.
  intros Hin. unfold SaveAirport. destruct (_ || _); [done |]. cbv zeta.
  by rewrite (bool_decide_eq_true_2 _ Hin).
Qed.

Lemma SaveAirport_fresh f city :
  ~ refused city -> city ∉ contents f ->
  SaveAirport f city true = Stored (sortStrings (contents f ++ [city])).
Proof.
  intros Hok Hnot. unfold SaveAirport.
  destruct (_ || _) eqn:Href; [by apply refused_spec in Href |]. cbv zeta.
  by rewrite (bool_decide_eq_false_2 _ Hnot).
Qed.

(** A name that is not refused is in the list after a successful save,
    a refused name leaves the file as it was, and saving the same name a
    second time changes nothing. *)
Theorem SaveAirport_saved (f : file) (city : string) :
  (~ refused city -> city ∈ contents (SaveAirport f city true)) /\
  (refused city -> forall written, SaveAirport f city written = f) /\
  (forall written,
      SaveAirport (SaveAirport f city true) city written = SaveAirport f city true).
Proof.
  assert (Hdec : refused city \/ ~ refused city).
  { destruct (String.eqb city "" || String.eqb city "Unknown"
              || String.eqb city "N/A") eqn:E.
    - left. by apply refused_spec.
    - right. intros Hr. apply refused_spec in Hr. congruence. }
  split; [| split].
  - intros Hok. destruct (decide (city ∈ contents f)) as [Hin | Hnot].
    + by rewrite (SaveAirport_present f city true Hin).
    + rewrite SaveAirport_fresh by done. simpl. rewrite sortStrings_perm.
      set_solver.
  - intros Hr written. by apply SaveAirport_refused.
  - intros written. destruct Hdec as [Hr | Hok].
    + rewrite (SaveAirport_refused f city true Hr). by apply SaveAirport_refused.
    + destruct (decide (city ∈ contents f)) as [Hin | Hnot].
      * rewrite (SaveAirport_present f city true Hin). by apply SaveAirport_present.
      * rewrite SaveAirport_fresh by done. apply SaveAirport_present.
        simpl. rewrite sortStrings_perm. set_solver.
Qed.

End Airports.

(** * go_version/data.go: users and scores *)
Module Users.

Record UserStats : Type := mkUser {
  Name : string;
  GamesPlayed : Z;
  TotalScore : Z;
  BestScore : Z;
  PerformancePercent : Z
}.

(** Arithmetic of a 64-bit [int]: results wrap around. *)
Definition wrap (z : Z) : Z := (z + 2 ^ 63) mod 2 ^ 64 - 2 ^ 63.

(** The file [users.json]: absent, unusable (unreadable or not a JSON map
    of users), or holding a map of users. *)
Inductive file : Type :=
| Missing
| Unusable
| Stored (users : gmap string UserStats).

(** [LoadUsers]: the map, or [None] for an error. *)
Definition LoadUsers (f : file) : option (gmap string UserStats) :=
  match f with
  | Missing => Some ∅
  | Unusable => None
  | Stored users => Some users
  end.


(** [DeleteUser]: the file afterwards and whether the error is nil. *)
Definition DeleteUser (f : file) (name : string) (written : bool) : file * bool :=
  match LoadUsers f with
  | None => (f, false)
  | Some users =>
      match users !! name with
      | Some _ => if written then (Stored (delete name users), true) else (f, false)
      | None => (f, true)
      end
  end.

Lemma wrap_small z : (- 2 ^ 63 <= z < 2 ^ 63)%Z -> wrap z = z.
Proof. intros H. unfold wrap. rewrite Z.mod_small; lia. Qed.



(** Deleting a user removes that user and no other; deleting a user that
    is not in the file writes nothing. *)
Theorem DeleteUser_LoadUsers
    (f : file) (users : gmap string UserStats) (name : string) :
  LoadUsers f = Some users ->
  (DeleteUser f name true).2 = true /\
  (forall other,
      default ∅ (LoadUsers (DeleteUser f name true).1) !! other
      = if decide (other = name) then None else users !! other) /\
  (users !! name = None -> forall written, DeleteUser f name written = (f, true)).
Proof.
  intros Hload. unfold DeleteUser. rewrite Hload.
  destruct (users !! name) as [u |] eqn:Hu; simpl.
  - split; [done |]. split; [| done].
    intros other. destruct (decide (other = name)) as [-> | Hne].
    + apply lookup_delete_eq.
    + by apply lookup_delete_ne.
  - split; [done |]. split; [| done].
    intros other. rewrite Hload. simpl.
    destruct (decide (other = name)) as [-> | Hne]; done.
Qed.

Lemma DeleteUser_LoadUsers_witness :
  LoadUsers (Stored {[ "ada" := mkUser "ada" 1 730 730 0 ]})
  = Some {[ "ada" := mkUser "ada" 1 730 730 0 ]} /\
  (DeleteUser (Stored {[ "ada" := mkUser "ada" 1 730 730 0 ]}) "ada" true).2 = true.
Proof.
  split; [reflexivity |].
  exact (proj1 (DeleteUser_LoadUsers (Stored {[ "ada" := mkUser "ada" 1 730 730 0 ]})
                  {[ "ada" := mkUser "ada" 1 730 730 0 ]} "ada" eq_refl)).
Defined.

End Users.

Module Scores.

Record ScoreEntry : Type := mkScore {
  Name : string;
  Score : Z;
  Date : string
}.

(** The file [scores.json]. *)
Inductive file : Type :=
| Missing
| Unusable
| Stored (scores : list ScoreEntry).

Definition LoadScores (f : file) : option (list ScoreEntry) :=
  match f with
  | Missing => Some []
  | Unusable => None
  | Stored scores => Some scores
  end.

(** [sort.Slice] with [scores[i].Score > scores[j].Score]: descending by
    score.  The library does not say in which order it leaves entries of
    equal score; the model keeps the later of two equal entries behind the
    earlier, and no statement below depends on that. *)
Fixpoint insertByScore (e : ScoreEntry) (l : list ScoreEntry) : list ScoreEntry :=
  match l with
  | [] => [e]
  | x :: l' =>
      if (Score x <? Score e)%Z then e :: l else x :: insertByScore e l'
  end.

Definition sortByScore (l : list ScoreEntry) : list ScoreEntry :=
  foldr insertByScore [] l.

(** [AddScore]: the file afterwards and the list returned, [None] for an
    error.  A write that fails is taken to leave the file as it was. *)
Definition AddScore (f : file) (entry : ScoreEntry) (written : bool)
  : file * option (list ScoreEntry) :=
  match LoadScores f with
  | None => (f, None)
  | Some scores =>
      let scores := sortByScore (scores ++ [entry]) in
      let scores := if (10 <? length scores)%nat then take 10 scores else scores in
      if written then (Stored scores, Some scores) else (f, None)
  end.

(** Scores from the highest to the lowest. *)
Definition descending (l : list ScoreEntry) : Prop :=
  forall i j a b, (i <= j)%nat -> l !! i = Some a -> l !! j = Some b ->
                  (Score b <= Score a)%Z.

Lemma insertByScore_perm e l : insertByScore e l ≡ₚ e :: l.
Proof.
  induction l as [| x l IH]; simpl; [done |].
  destruct (Score x <? Score e)%Z; [done |].
  rewrite IH. apply Permutation_swap.
Qed.

Lemma sortByScore_perm l : sortByScore l ≡ₚ l.
Proof.
  induction l as [| x l IH]; simpl; [done |].
  by rewrite insertByScore_perm, IH.
Qed.

Lemma descending_cons x l :
  descending (x :: l) <-> (forall y, y ∈ l -> (Score y <= Score x)%Z) /\ descending l.
Proof.
  unfold descending. split.
  - intros H. split.
    + intros y Hy. apply list_elem_of_lookup in Hy as [j Hj].
      apply (H 0%nat (S j) x y); [lia | done | done].
    + intros i j a b Hij Ha Hb. apply (H (S i) (S j) a b); [lia | done | done].
  - intros [Hhd Htl] i j a b Hij Ha Hb.
    destruct i as [| i], j as [| j]; simpl in *; try lia.
    + simplify_eq. lia.
    + injection Ha as <-. apply Hhd. by eapply list_elem_of_lookup_2.
    + apply (Htl i j a b); [lia | done | done].
Qed.

Lemma insertByScore_descending e l :
  descending l -> descending (insertByScore e l).
Proof.
  induction l as [| x l IH]; intros Hd; simpl.
  - apply descending_cons. split; [| done]. intros y Hy. by apply elem_of_nil in Hy.
  - apply descending_cons in Hd as [Hhd Htl].
    destruct (Z.ltb_spec (Score x) (Score e)).
    + apply descending_cons. split.
      * intros y [-> | Hy]%elem_of_cons; [lia |]. specialize (Hhd y Hy). lia.
      * apply descending_cons. by split.
    + apply descending_cons. split; [| by apply IH].
      intros y Hy. rewrite insertByScore_perm in Hy.
      apply elem_of_cons in Hy as [-> | Hy]; [lia | by apply Hhd].
Qed.

Lemma sortByScore_descending l : descending (sortByScore l).
Proof.
  induction l as [| x l IH]; simpl.
  - intros i j a b _ Ha. by rewrite lookup_nil in Ha.
  - by apply insertByScore_descending.
Qed.

(** The list [AddScore] returns is the one it stores.  It has at most ten
    entries, in descending order of score; each is the new entry or one
    that was stored before; and when the new entry is not kept, ten
    entries with at least its score are. *)
Theorem AddScore_top_ten (f : file) (scores : list ScoreEntry) (entry : ScoreEntry) :
  LoadScores f = Some scores ->
  exists kept,
    AddScore f entry true = (Stored kept, Some kept) /\
    (length kept <= 10)%nat /\
    length kept = Nat.min 10 (S (length scores)) /\
    descending kept /\
    (forall e, e ∈ kept -> e = entry \/ e ∈ scores) /\
    (entry ∉ kept ->
     length kept = 10%nat /\ forall e, e ∈ kept -> (Score entry <= Score e)%Z).
Proof.
  intros Hload. unfold AddScore. rewrite Hload. cbv zeta.
  set (sorted := sortByScore (scores ++ [entry])).
  assert (Hperm : sorted ≡ₚ scores ++ [entry]) by apply sortByScore_perm.
  assert (Hdesc : descending sorted) by apply sortByScore_descending.
  assert (Hlen : length sorted = S (length scores)).
  { rewrite Hperm, length_app. simpl. lia. }
  assert (Hfrom : forall e, e ∈ sorted -> e = entry \/ e ∈ scores).
  { intros e He. rewrite Hperm in He. set_solver. }
  assert (Hentry : entry ∈ sorted) by (rewrite Hperm; set_solver).
  destruct (10 <? length sorted)%nat eqn:Hlong.
  - apply Nat.ltb_lt in Hlong.
    exists (take 10 sorted). split; [done |].
    assert (Hl10 : length (take 10 sorted) = 10%nat) by (rewrite length_take; lia).
    split; [lia |]. split; [lia |]. split; [| split].
    + intros i j a b Hij Ha Hb.
      rewrite lookup_take_Some in Ha, Hb. destruct Ha as [Ha _], Hb as [Hb _].
      by apply (Hdesc i j a b).
    + intros e He. apply Hfrom.
      apply elem_of_take in He as (i & Hi & _). by eapply list_elem_of_lookup_2.
    + intros Hnot. split; [done |]. intros e He.
      (* the new entry sits at a position past the tenth *)
      apply list_elem_of_lookup in Hentry as [j Hj].
      apply elem_of_take in He as (i & Hi & Hi10).
      assert (10 <= j)%nat.
      { destruct (Nat.lt_ge_cases j 10) as [Hlt | ?]; [| done].
        exfalso. apply Hnot. apply elem_of_take. by exists j. }
      apply (Hdesc i j e entry); [lia | done | done].
  - apply Nat.ltb_ge in Hlong.
    exists sorted. split; [done |].
    split; [lia |]. split; [lia |]. split; [done |]. split; [done |].
    intros Hnot. by exfalso.
Qed.

Lemma AddScore_top_ten_witness :
  LoadScores Missing = Some [] /\
  exists kept,
    AddScore Missing (mkScore "ada" 730 "2026-01-01") true = (Stored kept, Some kept) /\
    (length kept <= 10)%nat.
Proof.
  split; [reflexivity |].
  destruct (AddScore_top_ten Missing [] (mkScore "ada" 730 "2026-01-01") eq_refl)
    as (kept & H1 & H2 & _).
  exists kept. by split.
Defined.

End Scores.

(** * main.go: the quiz (what go_version and go_raylib share) *)
Module Game.
Import GoStrings.

Inductive State : Type :=
| StateLogin
| StateMap
| StateGameBriefing
| StateGamePlaying
| StateRoundSetup
| StateGameOver
| StateLeaderboard.

(** The fields of [Game] that the quiz reads and writes. *)
Record Game : Type := mkGame {
  flights : list Flights.Flight;
  state : State;
  airports : list string;
  camLat : Q;
  camLon : Q;
  selectedPlane : option Flights.Flight;
  resolvedDetails : option Scraper.ResolvedDetails;
  resolving : bool;
  score : Z;
  targetPlane : option Flights.Flight;
  round : Z;
  roundStartTime : Z;
  questionText : string;
  options : list string;
  correctOption : string;
  wrongGuess : string;
  showResult : bool;
  resultCorrect : bool;
  resultStartTime : Z
}.

(** What a function leaves to run later: the goroutine that resolves a
    callsign, or a timer that calls [pickNewTarget] again. *)
Inductive effect : Type :=
| Resolve (callsign : string)
| RetryAfter (d : Z).

(** [refreshAirports] *)
Definition refreshAirports (g : Game) (f : Airports.file) : Game :=
  let loaded :=
    match Airports.LoadAirports f with
    | Some (a :: l) => a :: l
    | _ => ["London"; "Paris"; "Berlin"; "Helsinki"; "Tokyo"; "New York";
            "Dubai"; "Rome"]
    end in
  mkGame (flights g) (state g) loaded (camLat g) (camLon g) (selectedPlane g)
         (resolvedDetails g) (resolving g) (score g) (targetPlane g) (round g)
         (roundStartTime g) (questionText g) (options g) (correctOption g)
         (wrongGuess g) (showResult g) (resultCorrect g) (resultStartTime g).

(** [d[i], d[j] = d[j], d[i]] *)
Definition swap (d : list string) (i j : nat) : list string :=
  match d !! i, d !! j with
  | Some a, Some b => <[j := a]> (<[i := b]> d)
  | _, _ => d
  end.

(** [rand.Shuffle(n, swap)]: for [i] from [n-1] down to [1], [swap(i, j)]
    with [j] drawn in [0..i]; [draw i] is the number drawn at [i]. *)
Fixpoint shuffleFrom (draw : nat -> nat) (i : nat) (d : list string) : list string :=
  match i with
  | O => d
  | S i' => shuffleFrom draw i' (swap d i (draw i mod (i + 1)))
  end.

Definition Shuffle (draw : nat -> nat) (d : list string) : list string :=
  shuffleFrom draw (length d - 1) d.

(** The loop that takes distractors: it stops at four options. *)
Fixpoint takeDistractors (correct : string) (distractors opts : list string)
  : list string :=
  match distractors with
  | [] => opts
  | c :: rest =>
      if (4 <=? length opts)%nat then opts
      else if negb (String.eqb c correct) && negb (String.eqb c "Unknown")
      then takeDistractors correct rest (opts ++ [c])
      else takeDistractors correct rest opts
  end.

(** The loop that fills from the fallback cities. *)
Fixpoint fill (fallbacks opts : list string) : list string :=
  match fallbacks with
  | [] => opts
  | c :: rest =>
      if (4 <=? length opts)%nat then opts
      else if bool_decide (c ∈ opts) then fill rest opts
      else fill rest (opts ++ [c])
  end.

(** [generateOptions], for the fallback cities of a front end. *)
Definition generateOptionsWith (fallbacks : list string) (g : Game)
    (f : Airports.file) (draw1 draw2 : nat -> nat) : Game :=
  let g := refreshAirports g f in
  let distractors := Shuffle draw1 (airports g) in
  let opts := takeDistractors (correctOption g) distractors [correctOption g] in
  let opts := if (length opts <? 4)%nat then fill fallbacks opts else opts in
  let opts := Shuffle draw2 opts in
  mkGame (flights g) (state g) (airports g) (camLat g) (camLon g)
         (selectedPlane g) (resolvedDetails g) (resolving g) (score g)
         (targetPlane g) (round g) (roundStartTime g) (questionText g) opts
         (correctOption g) (wrongGuess g) (showResult g) (resultCorrect g)
         (resultStartTime g).

(** [pickNewTarget]; [r] is the number [rand.Intn] draws. *)
Definition pickNewTarget (g : Game) (r : nat) : Game * list effect :=
  match flights g with
  | [] =>
      (mkGame (flights g) StateRoundSetup (airports g) (camLat g) (camLon g)
              (selectedPlane g) (resolvedDetails g) (resolving g) (score g)
              (targetPlane g) (round g) (roundStartTime g) (questionText g)
              (options g) (correctOption g) "" false (resultCorrect g)
              (resultStartTime g),
       [RetryAfter (1 * Second)])
  | first :: _ =>
      let idx := (r mod length (flights g))%nat in
      let target := default first (flights g !! idx) in
      (mkGame (flights g) StateRoundSetup (airports g) (Flights.Lat target)
              (Flights.Lon target) (Some target) None true (score g)
              (Some target) (round g) (roundStartTime g) (questionText g)
              (options g) (correctOption g) "" false (resultCorrect g)
              (resultStartTime g),
       [Resolve (Flights.Callsign target)])
  end.

(** [time.Duration.Seconds]:
    [sec := d / Second; nsec := d % Second;
     return float64(sec) + float64(nsec)/1e9] *)
Definition Seconds (d : Z) : Q :=
  float64_add (float64_of_int (Z.quot d Second))
              (float64_div (float64_of_int (Z.rem d Second)) 1000000000).

(** The time bonus of a correct guess after [d] nanoseconds:
    [int(math.Max(0, (20.0-elapsed)/20.0*100.0))]. *)
Definition bonus (d : Z) : Z :=
  let elapsed := Seconds d in
  float64_to_int
    (math_Max 0 (float64_mul (float64_div (float64_sub 20 elapsed) 20) 100)).

(** [guess]; [now] is the clock at [time.Since], [later] at [time.Now]. *)
Definition guess (g : Game) (city : string) (now later : Z) : Game :=
  if showResult g then g
  else
    let correct := String.eqb city (correctOption g) in
    mkGame (flights g) (state g) (airports g) (camLat g) (camLon g)
           (selectedPlane g) (resolvedDetails g) (resolving g)
           (if correct
            then score g + (100 + bonus (time_Since now (roundStartTime g)))
            else score g)%Z
           (targetPlane g) (round g) (roundStartTime g) (questionText g)
           (options g) (correctOption g)
           (if correct then wrongGuess g else city)
           true correct later.

(** The increment for a correct guess in the words of the specification,
    [100 + max(0, round((20 - elapsedSeconds)/20 * 100))], for an elapsed
    time of [d] nanoseconds. *)
Definition claimedIncrement (d : Z) : Z :=
  (100 + Z.max 0 (Qfloor ((20 - (d # 1000000000)) / 20 * 100 + (1 # 2))%Q))%Z.

(** A game in which a round is being played: the round began at instant
    [0] and asks for "Stockholm". *)
Definition playing : Game :=
  mkGame [Flights.sampleFlight] StateGamePlaying [] 0 0
         (Some Flights.sampleFlight) None false 300
         (Some Flights.sampleFlight) 2 0 "Where is FIN123 going?"
         ["Paris"; "Stockholm"; "Rome"; "Oslo"] "Stockholm" "" false false 0.

(** A game that waits for the details of its target. *)
Definition awaiting : Game :=
  mkGame [Flights.sampleFlight] StateRoundSetup [] 0 0
         (Some Flights.sampleFlight) None true 300
         (Some Flights.sampleFlight) 2 0 "" [] "" "" false false 0.

(** [g.round++] and [g.state = StateGameOver] *)
Definition withRound (g : Game) (n : Z) (s : State) : Game :=
  mkGame (flights g) s (airports g) (camLat g) (camLon g) (selectedPlane g)
         (resolvedDetails g) (resolving g) (score g) (targetPlane g) n
         (roundStartTime g) (questionText g) (options g) (correctOption g)
         (wrongGuess g) (showResult g) (resultCorrect g) (resultStartTime g).

(** [nextRound] *)
Definition nextRound (g : Game) (r : nat) : Game * list effect :=
  let g := withRound g (round g + 1) (state g) in
  if (5 <? round g)%Z then (withRound g (round g) StateGameOver, [])
  else pickNewTarget g r.

(** [startGame] *)
Definition startGame (g : Game) (r : nat) : Game * list effect :=
  match flights g with
  | [] => (g, [])
  | _ :: _ =>
      let g :=
        mkGame (flights g) (state g) (airports g) (camLat g) (camLon g)
               (selectedPlane g) (resolvedDetails g) (resolving g) 0
               (targetPlane g) 0 (roundStartTime g) (questionText g)
               (options g) (correctOption g) (wrongGuess g) (showResult g)
               (resultCorrect g) (resultStartTime g) in
      nextRound g r
  end.

(** [nextRound] called once for each draw of the list. *)
Definition rounds (g : Game) (draws : list nat) : Game :=
  foldl (λ g r, (nextRound g r).1) g draws.

(** The record of the new snapshot with the transponder id of [old], when
    there is one; [old] otherwise. *)
Definition rebind (old : option Flights.Flight) (snapshot : list Flights.Flight)
  : option Flights.Flight :=
  match old with
  | None => None
  | Some p =>
      match
        list_find (λ f, Flights.Icao24 f = Flights.Icao24 p) snapshot
      with
      | Some (_, f) => Some f
      | None => Some p
      end
  end.

(** One turn of the loop of [refreshFlights], for what [FetchFlights]
    returned. *)
Definition refreshFlights (g : Game) (snapshot : list Flights.Flight)
    (err : option Flights.error) : Game :=
  match err with
  | Some _ => g
  | None =>
      mkGame snapshot (state g) (airports g) (camLat g) (camLon g)
             (rebind (selectedPlane g) snapshot) (resolvedDetails g)
             (resolving g) (score g) (rebind (targetPlane g) snapshot)
             (round g) (roundStartTime g) (questionText g) (options g)
             (correctOption g) (wrongGuess g) (showResult g) (resultCorrect g)
             (resultStartTime g)
  end.

(** What a successful poll makes of the selected or of the target
    aircraft [old]: the first record of the snapshot with its transponder
    id, or [old] itself when the snapshot has none. *)
Definition rebound (old new : option Flights.Flight)
    (snapshot : list Flights.Flight) : Prop :=
  match old with
  | None => new = None
  | Some p =>
      (exists i f,
          snapshot !! i = Some f /\ Flights.Icao24 f = Flights.Icao24 p /\
          (forall j f', (j < i)%nat -> snapshot !! j = Some f' ->
                        Flights.Icao24 f' <> Flights.Icao24 p) /\
          new = Some f) \/
      ((forall f, f ∈ snapshot -> Flights.Icao24 f <> Flights.Icao24 p) /\
       new = Some p)
  end.

(** The aircraft of [Flights.sampleFlight] two minutes later, and another
    aircraft. *)
Definition movedFlight : Flights.Flight :=
  Flights.mkFlight "4601f2" "FIN123" 25.3 60.5 250 265 9800 false "Finland"
                   "Heavy" "".

Definition otherFlight : Flights.Flight :=
  Flights.mkFlight "3c6444" "DLH2ND" 24.1 60.2 410 90 34000 false "Germany"
                   "Large" "".

(** The result of setting up a round: the game, the airport file and what
    was launched; or the panic of [g.targetPlane.Callsign] on a nil
    target. *)
Inductive outcome : Type :=
| Done (g : Game) (f : Airports.file) (es : list effect)
| NilDereference.

(** [g.resolvedDetails = details; g.resolving = false] *)
Definition received (g : Game) (details : Scraper.ResolvedDetails) : Game :=
  mkGame (flights g) (state g) (airports g) (camLat g) (camLon g)
         (selectedPlane g) (Some details) false (score g) (targetPlane g)
         (round g) (roundStartTime g) (questionText g) (options g)
         (correctOption g) (wrongGuess g) (showResult g) (resultCorrect g)
         (resultStartTime g).

(** [g.questionText = ...; g.correctOption = ...] *)
Definition ask (g : Game) (question correct : string) : Game :=
  mkGame (flights g) (state g) (airports g) (camLat g) (camLon g)
         (selectedPlane g) (resolvedDetails g) (resolving g) (score g)
         (targetPlane g) (round g) (roundStartTime g) question (options g)
         correct (wrongGuess g) (showResult g) (resultCorrect g)
         (resultStartTime g).

(** [g.roundStartTime = time.Now(); g.state = StateGamePlaying] *)
Definition play (g : Game) (now : Z) : Game :=
  mkGame (flights g) StateGamePlaying (airports g) (camLat g) (camLon g)
         (selectedPlane g) (resolvedDetails g) (resolving g) (score g)
         (targetPlane g) (round g) now (questionText g) (options g)
         (correctOption g) (wrongGuess g) (showResult g) (resultCorrect g)
         (resultStartTime g).

(** Details that the validation of go_version rejects. *)
Definition unusable (details : Scraper.ResolvedDetails) : Prop :=
  Scraper.RealDestination details = "" \/
  Scraper.RealDestination details = "Unknown" \/
  Scraper.Origin details = "" \/ Scraper.Origin details = "Unknown".

(** The random draws and clock readings of one round setup, and whether
    the two writes of the airport file succeed. *)
Record chance : Type := mkChance {
  target_draw : nat;
  shuffle_distractors : nat -> nat;
  shuffle_options : nat -> nat;
  clock : Z;
  written_destination : bool;
  written_origin : bool
}.

Definition steady : chance :=
  mkChance 0 (λ _, 0%nat) (λ _, 0%nat) (90 * Second) true true.

(** ** go_version/main.go *)
Module Ebiten.

Definition fallbacks : list string :=
  ["London"; "Paris"; "Berlin"; "Helsinki"; "Tokyo"; "New York"].

Definition generateOptions := generateOptionsWith fallbacks.

Definition setupRoundWithData (g : Game) (details : Scraper.ResolvedDetails)
    (f : Airports.file) (c : chance) : outcome :=
  let g := received g details in
  let dest := Scraper.RealDestination details in
  let origin := Scraper.Origin details in
  if String.eqb dest "" || String.eqb dest "Unknown"
     || String.eqb origin "" || String.eqb origin "Unknown"
  then let '(g, es) := pickNewTarget g (target_draw c) in Done g f es
  else
    let f := Airports.SaveAirport f dest (written_destination c) in
    let f := Airports.SaveAirport f origin (written_origin c) in
    let isInbound := Contains dest "Helsinki" || Contains dest "Vantaa" in
    match targetPlane g with
    | None => NilDereference
    | Some target =>
        let g :=
          if isInbound
          then ask g ("Where is " +:+ Flights.Callsign target +:+ " from?") origin
          else ask g ("Where is " +:+ Flights.Callsign target +:+ " going?") dest in
        let g := generateOptions g f (shuffle_distractors c) (shuffle_options c) in
        Done (play g (clock c)) f []
    end.

End Ebiten.

(** ** go_raylib/main.go *)
Module Raylib.

Definition fallbacks : list string := ["London"; "Paris"; "Berlin"; "Helsinki"].

Definition generateOptions := generateOptionsWith fallbacks.

Definition setupRoundWithData (g : Game) (details : Scraper.ResolvedDetails)
    (f : Airports.file) (c : chance) : outcome :=
  let g := received g details in
  let dest := Scraper.RealDestination details in
  let origin := Scraper.Origin details in
  if String.eqb dest "" || String.eqb dest "Unknown"
  then let '(g, es) := pickNewTarget g (target_draw c) in Done g f es
  else
    let f := Airports.SaveAirport f dest (written_destination c) in
    let f := Airports.SaveAirport f origin (written_origin c) in
    match targetPlane g with
    | None => NilDereference
    | Some target =>
        let g :=
          if Contains dest "Helsinki"
          then ask g ("Where is " +:+ Flights.Callsign target +:+ " from?") origin
          else ask g ("Where is " +:+ Flights.Callsign target +:+ " going?") dest in
        let g := generateOptions g f (shuffle_distractors c) (shuffle_options c) in
        Done (play g (clock c)) f []
    end.

End Raylib.

(** ** Shuffling *)

Lemma insert_head_perm (l : list string) j a b :
  l !! j = Some b -> b :: <[j := a]> l ≡ₚ a :: l.
Proof.
  revert j. induction l as [| x l IH]; intros [| j] H; simpl in *; try done.
  - injection H as ->. apply Permutation_swap.
  - etrans; [apply Permutation_swap |].
    etrans; [| apply Permutation_swap].
    apply Permutation_skip. by apply IH.
Qed.

Lemma swap_perm d i j : swap d i j ≡ₚ d.
Proof.
  unfold swap.
  destruct (d !! i) as [a |] eqn:Hi; [| done].
  destruct (d !! j) as [b |] eqn:Hj; [| done].
  revert i j Hi Hj. induction d as [| x d IH]; intros i j Hi Hj; [done |].
  destruct i as [| i], j as [| j]; simpl in *.
  - by simplify_eq.
  - injection Hi as ->. by apply insert_head_perm.
  - injection Hj as ->. by apply insert_head_perm.
  - apply Permutation_skip. by apply IH.
Qed.

Lemma shuffleFrom_perm draw i d : shuffleFrom draw i d ≡ₚ d.
Proof.
  revert d. induction i as [| i IH]; intros d; simpl; [done |].
  by rewrite IH, swap_perm.
Qed.

Lemma Shuffle_perm draw d : Shuffle draw d ≡ₚ d.
Proof. apply shuffleFrom_perm. Qed.

(** ** Building the options *)

Lemma takeDistractors_spec correct ds opts :
  exists extra,
    takeDistractors correct ds opts = opts ++ extra /\
    extra `sublist_of` ds /\
    Forall (λ c, c <> correct /\ c <> "Unknown") extra /\
    ((length opts <= 4)%nat -> (length (opts ++ extra) <= 4)%nat).
Proof.
  revert opts. induction ds as [| c ds IH]; intros opts; cbn [takeDistractors].
  - exists []. rewrite app_nil_r. by repeat split.
  - destruct (4 <=? length opts)%nat eqn:Hfull.
    { exists []. rewrite app_nil_r. repeat split; try done. apply sublist_nil_l. }
    apply Nat.leb_gt in Hfull.
    destruct (negb (String.eqb c correct) && negb (String.eqb c "Unknown")) eqn:Hc.
    + destruct (IH (opts ++ [c])) as (extra & Heq & Hsub & Hall & Hlen).
      exists (c :: extra). rewrite Heq, <- app_assoc. simpl.
      split; [done |]. split; [by apply sublist_skip |]. split.
      * apply andb_prop in Hc as [H1 H2].
        apply negb_true_iff, String.eqb_neq in H1.
        apply negb_true_iff, String.eqb_neq in H2.
        by constructor.
      * intros _. rewrite <- app_assoc in Hlen. simpl in Hlen. apply Hlen.
        rewrite length_app. simpl. lia.
    + destruct (IH opts) as (extra & Heq & Hsub & Hall & Hlen).
      exists extra. split; [done |]. split; [by apply sublist_cons |]. done.
Qed.

Lemma fill_spec fallbacks opts :
  exists extra,
    fill fallbacks opts = opts ++ extra /\
    extra `sublist_of` fallbacks /\
    Forall (λ c, c ∉ opts) extra /\
    ((length opts <= 4)%nat -> (length (opts ++ extra) <= 4)%nat).
Proof.
  revert opts. induction fallbacks as [| c fb IH]; intros opts; cbn [fill].
  - exists []. rewrite app_nil_r. by repeat split.
  - destruct (4 <=? length opts)%nat eqn:Hfull.
    { exists []. rewrite app_nil_r. repeat split; try done. apply sublist_nil_l. }
    apply Nat.leb_gt in Hfull.
    destruct (bool_decide (c ∈ opts)) eqn:Hc.
    + destruct (IH opts) as (extra & Heq & Hsub & Hall & Hlen).
      exists extra. split; [done |]. split; [by apply sublist_cons |]. done.
    + apply bool_decide_eq_false in Hc.
      destruct (IH (opts ++ [c])) as (extra & Heq & Hsub & Hall & Hlen).
      exists (c :: extra). rewrite Heq, <- app_assoc. simpl.
      split; [done |]. split; [by apply sublist_skip |]. split.
      * constructor; [done |].
        eapply Forall_impl; [exact Hall |]. intros x Hx Hin. apply Hx.
        apply elem_of_app. by left.
      * intros _. rewrite <- app_assoc in Hlen. simpl in Hlen. apply Hlen.
        rewrite length_app. simpl. lia.
Qed.

Lemma filter_free_snoc (opts fb : list string) c :
  c ∉ fb ->
  filter (λ x, x ∉ opts ++ [c]) fb = filter (λ x, x ∉ opts) fb.
Proof.
  induction fb as [| y fb IH]; intros Hc; [done |].
  apply not_elem_of_cons in Hc as [Hne Hc].
  destruct (decide (y ∈ opts)) as [Hy | Hy].
  - rewrite !filter_cons_False; [by apply IH | by intros H; apply H |].
    intros H. apply H, elem_of_app. by left.
  - rewrite !filter_cons_True; [by rewrite IH | done |].
    rewrite elem_of_app, list_elem_of_singleton. intros [? | ?]; congruence.
Qed.

Lemma filter_split_length (opts l : list string) :
  (length (filter (λ c, c ∈ opts) l) + length (filter (λ c, c ∉ opts) l)
   = length l)%nat.
Proof.
  induction l as [| y l IH]; [done |].
  destruct (decide (y ∈ opts)) as [Hy | Hy].
  - rewrite filter_cons_True by done.
    rewrite (filter_cons_False (λ c, c ∉ opts)) by (intros H; by apply H).
    simpl. lia.
  - rewrite filter_cons_False by done.
    rewrite (filter_cons_True (λ c, c ∉ opts)) by done.
    simpl. lia.
Qed.

(** Filling reaches four options when enough fallback cities are free. *)
Lemma fill_length fallbacks opts :
  NoDup fallbacks ->
  (length opts <= 4)%nat ->
  (4 <= length opts + length (filter (λ c, c ∉ opts) fallbacks))%nat ->
  length (fill fallbacks opts) = 4%nat.
Proof.
  revert opts. induction fallbacks as [| c fb IH]; intros opts Hnd Hle Hfree.
  - simpl in *. lia.
  - cbn [fill]. apply NoDup_cons in Hnd as [Hc Hnd].
    destruct (4 <=? length opts)%nat eqn:Hfull.
    { apply Nat.leb_le in Hfull. lia. }
    apply Nat.leb_gt in Hfull.
    destruct (bool_decide (c ∈ opts)) eqn:Hin.
    + apply bool_decide_eq_true in Hin.
      apply IH; [done | done |].
      rewrite filter_cons_False in Hfree by (intros H; by apply H). done.
    + apply bool_decide_eq_false in Hin.
      rewrite filter_cons_True in Hfree by done. simpl in Hfree.
      apply IH; [done | rewrite length_app; simpl; lia |].
      rewrite length_app. simpl.
      rewrite (filter_free_snoc opts fb c Hc). lia.
Qed.

(** Of distinct fallback cities, at most [length opts] are among the
    options. *)
Lemma free_fallbacks fallbacks (opts : list string) :
  NoDup fallbacks ->
  (length fallbacks <= length opts + length (filter (λ c, c ∉ opts) fallbacks))%nat.
Proof.
  intros Hnd.
  pose proof (filter_split_length opts fallbacks) as Hsplit.
  assert (Hin : (length (filter (λ c, c ∈ opts) fallbacks) <= length opts)%nat).
  { apply submseteq_length, NoDup_submseteq.
    - by apply NoDup_filter.
    - intros x Hx. by apply list_elem_of_filter in Hx as [? _]. }
  lia.
Qed.

Lemma fallback_lists_NoDup :
  NoDup Ebiten.fallbacks /\ NoDup Raylib.fallbacks /\
  ("Unknown" ∉ Ebiten.fallbacks) /\ ("Unknown" ∉ Raylib.fallbacks).
Proof. repeat split; by apply (bool_decide_unpack _); vm_compute. Qed.

Lemma refreshAirports_airports g f :
  airports (refreshAirports g f)
  = match Airports.LoadAirports f with
    | Some (a :: l) => a :: l
    | _ => ["London"; "Paris"; "Berlin"; "Helsinki"; "Tokyo"; "New York";
            "Dubai"; "Rome"]
    end.
Proof. reflexivity. Qed.

Lemma refreshAirports_NoDup g f :
  NoDup (Airports.contents f) -> NoDup (airports (refreshAirports g f)).
Proof.
  intros Hnd. rewrite refreshAirports_airports.
  assert (Hdef : NoDup ["London"; "Paris"; "Berlin"; "Helsinki"; "Tokyo";
                        "New York"; "Dubai"; "Rome"])
    by (by apply (bool_decide_unpack _); vm_compute).
  destruct f as [| | partial | [| a l]]; simpl; done.
Qed.

(** What [generateOptions] leaves in [g.options], for distinct fallback
    cities of which there are at least four. *)
Lemma generateOptionsWith_options fallbacks g f draw1 draw2 :
  NoDup fallbacks -> (4 <= length fallbacks)%nat ->
  let g' := generateOptionsWith fallbacks g f draw1 draw2 in
  length (options g') = 4%nat /\
  length (filter (λ o, o = correctOption g) (options g')) = 1%nat /\
  (NoDup (airports (refreshAirports g f)) -> NoDup (options g')) /\
  (correctOption g <> "Unknown" -> "Unknown" ∉ fallbacks ->
   "Unknown" ∉ options g') /\
  correctOption g' = correctOption g.
Proof.
  intros Hfb Hfb4 g'. subst g'. unfold generateOptionsWith. cbv zeta.
  cbn [options correctOption].
  set (A := airports (refreshAirports g f)).
  change (correctOption (refreshAirports g f)) with (correctOption g).
  set (correct := correctOption g).
  destruct (takeDistractors_spec correct (Shuffle draw1 A) [correct])
    as (extra1 & E1 & Hsub1 & Hall1 & Hlen1).
  rewrite E1. specialize (Hlen1 ltac:(simpl; lia)).
  set (opts1 := [correct] ++ extra1) in *.
  assert (Hopts2 : exists extra2,
             (if (length opts1 <? 4)%nat then fill fallbacks opts1 else opts1)
             = opts1 ++ extra2 /\
             extra2 `sublist_of` fallbacks /\
             Forall (λ c, c ∉ opts1) extra2 /\
             length (opts1 ++ extra2) = 4%nat).
  { destruct (length opts1 <? 4)%nat eqn:Hlt.
    - destruct (fill_spec fallbacks opts1) as (extra2 & E2 & Hsub2 & Hall2 & _).
      exists extra2. repeat split; try done.
      rewrite <- E2. apply fill_length; [done | done |].
      pose proof (free_fallbacks fallbacks opts1 Hfb). lia.
    - apply Nat.ltb_ge in Hlt. exists []. rewrite app_nil_r.
      repeat split; [apply sublist_nil_l | done | lia]. }
  destruct Hopts2 as (extra2 & -> & Hsub2 & Hall2 & Hlen2).
  assert (Hc1 : correct ∉ extra1).
  { intros Hin. rewrite Forall_forall in Hall1. by destruct (Hall1 _ Hin). }
  assert (Hc2 : correct ∉ extra2).
  { intros Hin. rewrite Forall_forall in Hall2. apply (Hall2 _ Hin).
    subst opts1. set_solver. }
  repeat split.
  - by rewrite Shuffle_perm.
  - rewrite Shuffle_perm. subst opts1. rewrite <- app_assoc. simpl.
    rewrite filter_cons_True by done. simpl. f_equal.
    rewrite filter_app, length_app.
    assert (Hz : forall l : list string, correct ∉ l ->
                 length (filter (λ o, o = correct) l) = 0%nat).
    { intros l Hl. induction l as [| y l IH]; [done |].
      apply not_elem_of_cons in Hl as [Hne Hl].
      rewrite filter_cons_False by congruence. by apply IH. }
    rewrite (Hz _ Hc1), (Hz _ Hc2). done.
  - intros HA. rewrite Shuffle_perm.
    apply NoDup_app. split; [| split].
    + subst opts1. simpl. apply NoDup_cons. split; [done |].
      apply (sublist_NoDup extra1 (Shuffle draw1 A)); [| done].
      by rewrite Shuffle_perm.
    + intros x Hx Hx'. rewrite Forall_forall in Hall2. by apply (Hall2 x).
    + by apply (sublist_NoDup extra2 fallbacks).
  - intros Hcu Hfu. rewrite Shuffle_perm. subst opts1.
    rewrite <- app_assoc. simpl.
    rewrite elem_of_cons, elem_of_app. intros [Hu | [Hu | Hu]].
    + by apply Hcu.
    + rewrite Forall_forall in Hall1. by destruct (Hall1 _ Hu).
    + apply Hfu. by apply (elem_of_sublist extra2 fallbacks).
Qed.

(** ** Scoring *)

(** The value whose integer part is the bonus is within 10^-12 of
    [(20 s - d) / 200 ms] during the first twenty seconds. *)
Lemma bonus_value_near d :
  (0 <= d < 20 * Second)%Z ->
  let v := float64_mul (float64_div (float64_sub 20 (Seconds d)) 20) 100 in
  let exact := ((inject_Z (20 * Second - d)) / 200000000)%Q in
  (exact - (1 # 1000000000000) <= v <= exact + (1 # 1000000000000))%Q.
Proof.
  intros Hd. unfold Seconds, float64_add, float64_sub, float64_mul, float64_div,
    float64_of_int, Second in *. cbv zeta.
  pose proof (Z.quot_rem' d 1000000000) as Hqr.
  assert (Hrem : (0 <= Z.rem d 1000000000 < 1000000000)%Z)
    by (apply Z.rem_bound_pos; lia).
  assert (Hquot : (0 <= Z.quot d 1000000000 <= 19)%Z).
  { split; [apply Z.quot_pos; lia |].
    apply Z.lt_succ_r. apply Z.quot_lt_upper_bound; lia. }
  set (sec := Z.quot d 1000000000) in *. set (nsec := Z.rem d 1000000000) in *.
  assert (Hd' : (inject_Z d == 1000000000 * inject_Z sec + inject_Z nsec)%Q).
  { rewrite Hqr, inject_Z_plus, inject_Z_mult. reflexivity. }
  assert (Hs : (0 <= inject_Z sec <= 19)%Q).
  { split; [change 0%Q with (inject_Z 0) | change 19%Q with (inject_Z 19)];
      rewrite <- Zle_Qle; lia. }
  assert (Hn : (0 <= inject_Z nsec <= 999999999)%Q).
  { split; [change 0%Q with (inject_Z 0)
           | change 999999999%Q with (inject_Z 999999999)];
      rewrite <- Zle_Qle; lia. }
  replace (20 * 1000000000 - d)%Z with (20000000000 + - d)%Z by lia.
  rewrite inject_Z_plus, inject_Z_opp, Hd'.
  change (inject_Z 20000000000) with 20000000000%Q.
  set (qs := inject_Z sec) in *. set (qn := inject_Z nsec) in *.
  unfold Qdiv.
  change (/ 1000000000)%Q with (1 # 1000000000)%Q.
  change (/ 20)%Q with (1 # 20)%Q. change (/ 200000000)%Q with (1 # 200000000)%Q.
  rounded HS qs 5%Z. set (fs := round64 qs) in *.
  rounded HA qn 30%Z. set (fn := round64 qn) in *.
  rounded HB (fn * (1 # 1000000000))%Q 1%Z. set (frac := round64 (fn * _)) in *.
  rounded HE (fs + frac)%Q 5%Z. set (elapsed := round64 (fs + frac)) in *.
  rounded HT (20 - elapsed)%Q 5%Z. set (t := round64 (20 - elapsed)) in *.
  rounded HU (t * (1 # 20))%Q 1%Z. set (u := round64 (t * _)) in *.
  rounded HV (u * 100)%Q 7%Z.
  split; Lqa.lra.
Qed.

(** From twenty seconds on there is no bonus. *)
Lemma bonus_late d : (20 * Second <= d <= maxDuration)%Z -> bonus d = 0%Z.
Proof.
  intros Hd. unfold bonus, math_Max, Seconds, float64_add, float64_sub,
    float64_mul, float64_div, float64_of_int, Second, maxDuration in *. cbv zeta.
  pose proof (Z.quot_rem' d 1000000000) as Hqr.
  assert (Hrem : (0 <= Z.rem d 1000000000 < 1000000000)%Z)
    by (apply Z.rem_bound_pos; lia).
  assert (Hquot : (20 <= Z.quot d 1000000000 <= 2 ^ 34)%Z).
  { split; [apply Z.quot_le_lower_bound; lia |].
    apply Z.lt_succ_r. apply Z.quot_lt_upper_bound; lia. }
  set (sec := Z.quot d 1000000000) in *. set (nsec := Z.rem d 1000000000) in *.
  assert (Hs : (20 <= inject_Z sec <= 17179869184)%Q).
  { split; [change 20%Q with (inject_Z 20)
           | change 17179869184%Q with (inject_Z (2 ^ 34))];
      rewrite <- Zle_Qle; lia. }
  assert (Hn : (0 <= inject_Z nsec <= 999999999)%Q).
  { split; [change 0%Q with (inject_Z 0)
           | change 999999999%Q with (inject_Z 999999999)];
      rewrite <- Zle_Qle; lia. }
  set (qs := inject_Z sec) in *. set (qn := inject_Z nsec) in *.
  unfold Qdiv.
  change (/ 1000000000)%Q with (1 # 1000000000)%Q.
  change (/ 20)%Q with (1 # 20)%Q.
  rounded HS qs 34%Z. set (fs := round64 qs) in *.
  rounded HA qn 30%Z.
  pose proof (round64_nonneg qn ltac:(Lqa.lra)) as HA0. set (fn := round64 qn) in *.
  rounded HB (fn * (1 # 1000000000))%Q 1%Z.
  pose proof (round64_nonneg (fn * (1 # 1000000000)) ltac:(Lqa.lra)) as HB0.
  set (frac := round64 (fn * _)) in *.
  rounded HE (fs + frac)%Q 35%Z. set (elapsed := round64 (fs + frac)) in *.
  apply (float64_to_int_floor _ 0); [unfold maxInt; lia | apply Q.le_max_l |].
  change (inject_Z (0 + 1)) with 1%Q.
  apply Q.max_lub_lt; [reflexivity |].
  destruct (Qlt_le_dec 0 (20 - elapsed)) as [Hpos | Hneg].
  - rounded HT (20 - elapsed)%Q 0%Z. set (t := round64 (20 - elapsed)) in *.
    rounded HU (t * (1 # 20))%Q 0%Z. set (u := round64 (t * _)) in *.
    rounded HV (u * 100)%Q 0%Z.
    Lqa.lra.
  - pose proof (round64_nonpos (20 - elapsed) Hneg) as HT.
    set (t := round64 (20 - elapsed)) in *.
    pose proof (round64_nonpos (t * (1 # 20)) ltac:(Lqa.lra)) as HU.
    set (u := round64 (t * _)) in *.
    pose proof (round64_nonpos (u * 100) ltac:(Lqa.lra)) as HV.
    Lqa.lra.
Qed.

(** Before that the bonus is the number of whole 200 ms left of the
    twenty seconds; only when the time left is a whole number of them can
    the rounding of [float64] lose one. *)
Lemma bonus_early d :
  (0 <= d < 20 * Second)%Z ->
  let left := (20 * Second - d)%Z in
  (left mod 200000000 <> 0 -> bonus d = left / 200000000)%Z /\
  (left mod 200000000 = 0 ->
   bonus d = left / 200000000 \/ bonus d = left / 200000000 - 1)%Z.
Proof.
  intros Hd left. pose proof (bonus_value_near d Hd) as Hv. cbv zeta in Hv.
  unfold bonus, math_Max. cbv zeta.
  set (v := float64_mul (float64_div (float64_sub 20 (Seconds d)) 20) 100) in *.
  fold left in Hv.
  pose proof (Z.div_mod left 200000000 ltac:(lia)) as Hdm.
  pose proof (Z.mod_pos_bound left 200000000 ltac:(lia)) as Hr.
  assert (Hm : (0 <= left / 200000000 <= 100)%Z).
  { unfold Second in *. split; [apply Z.div_pos; lia |].
    apply Z.div_le_upper_bound; lia. }
  set (m := (left / 200000000)%Z) in *. set (r := (left mod 200000000)%Z) in *.
  assert (Hleft : (inject_Z left == 200000000 * inject_Z m + inject_Z r)%Q).
  { rewrite Hdm, inject_Z_plus, inject_Z_mult. reflexivity. }
  unfold Qdiv in Hv. change (/ 200000000)%Q with (1 # 200000000)%Q in Hv.
  rewrite Hleft in Hv.
  assert (Hrq : (0 <= inject_Z r <= 199999999)%Q).
  { split; [change 0%Q with (inject_Z 0)
           | change 199999999%Q with (inject_Z 199999999)];
      rewrite <- Zle_Qle; lia. }
  assert (Hl1 : (1 <= 200000000 * inject_Z m + inject_Z r)%Q).
  { rewrite <- Hleft. change 1%Q with (inject_Z 1). rewrite <- Zle_Qle.
    subst left. lia. }
  assert (Hmax : (Qmax 0 v == v)%Q) by (apply Q.max_r; Lqa.lra).
  assert (Hint : (m <= maxInt)%Z /\ (m - 1 <= maxInt)%Z) by (unfold maxInt; lia).
  split.
  - intros Hne. assert (H1 : (1 <= inject_Z r)%Q).
    { change 1%Q with (inject_Z 1). rewrite <- Zle_Qle. lia. }
    apply float64_to_int_floor; [lia | |]; rewrite ?inject_Z_plus;
      change (inject_Z 1) with 1%Q; Lqa.lra.
  - intros H0. assert (Hr0 : (inject_Z r == 0)%Q) by (by rewrite H0).
    assert (Hm1 : (1 <= m)%Z) by (subst left; unfold Second in *; lia).
    assert (Hm1q : (1 <= inject_Z m)%Q).
    { change 1%Q with (inject_Z 1). by rewrite <- Zle_Qle. }
    destruct (Qlt_le_dec v (inject_Z m)) as [Hlt | Hge].
    + right. apply float64_to_int_floor; [lia | |];
        replace (m - 1 + 1)%Z with m by lia;
        rewrite ?Hmax; [| done].
      unfold Z.sub. rewrite inject_Z_plus.
      change (inject_Z (- (1))) with (-1)%Q. Lqa.lra.
    + left. apply float64_to_int_floor; [lia | |]; rewrite ?inject_Z_plus;
        change (inject_Z 1) with 1%Q; Lqa.lra.
Qed.

(** The model and the kernel's floating-point numbers give the same bonus
    at every whole multiple of 200 ms in the first twenty seconds, where
    the exact value is an integer, and at the instants between them. *)
Lemma bonus_as_binary64 :
  Forall (fun k => bonus (Z.of_nat k * 100000000)
                   = Binary64.bonus (Z.of_nat k * 100000000))
         (seq 0 200).
Proof. apply (bool_decide_unpack _). vm_compute. reflexivity. Qed.

(** C6 (as amended). A guess made while a result is showing changes
    nothing.  Otherwise the result is showing afterwards; a guess equal to
    the correct answer adds 100 plus the bonus to the score, and any other
    guess adds nothing and is recorded as the wrong guess.  The bonus is
    [int(math.Max(0, (20.0-elapsed)/20.0*100.0))] in [float64]: its
    fraction is cut off, not rounded to nearest.  For an elapsed time of
    [d] nanoseconds, which is not negative when the clock has not gone
    back, it is 0 from 20 s on; before, it is the number of whole 200 ms
    left of the 20 s when the time left is not a whole number of them, and
    that number or one less when it is (the rounding of [float64]: after
    1.8 s the bonus is 90, not 91); it is 100 after 0 s and never
    negative nor more than 100. *)
Theorem guess_scores :
  (forall g city now later,
      showResult g = true -> guess g city now later = g) /\
  (forall g city now later,
      showResult g = false -> city = correctOption g ->
      score (guess g city now later)
      = (score g + (100 + bonus (time_Since now (roundStartTime g))))%Z /\
      wrongGuess (guess g city now later) = wrongGuess g /\
      resultCorrect (guess g city now later) = true /\
      showResult (guess g city now later) = true) /\
  (forall g city now later,
      showResult g = false -> city <> correctOption g ->
      score (guess g city now later) = score g /\
      wrongGuess (guess g city now later) = city /\
      resultCorrect (guess g city now later) = false /\
      showResult (guess g city now later) = true) /\
  (forall now start,
      (start <= now)%Z -> (0 <= time_Since now start <= maxDuration)%Z) /\
  (forall d,
      (0 <= d <= maxDuration)%Z ->
      let left := (20 * Second - d)%Z in
      (left <= 0 -> bonus d = 0)%Z /\
      (0 < left -> left mod 200000000 <> 0 -> bonus d = left / 200000000)%Z /\
      (0 < left -> left mod 200000000 = 0 ->
       bonus d = left / 200000000 \/ bonus d = left / 200000000 - 1)%Z /\
      (0 <= bonus d <= 100)%Z) /\
  bonus 0 = 100%Z /\
  bonus 1800000000 = 90%Z.
Proof.
  split; [| split; [| split; [| split; [| split; [| split]]]]];
    [ | | | | | vm_compute; reflexivity | vm_compute; reflexivity ].
  - intros g city now later H. unfold guess. by rewrite H.
  - intros g city now later H ->. unfold guess. rewrite H, String.eqb_refl.
    cbn [score wrongGuess resultCorrect showResult]. done.
  - intros g city now later H Hne. unfold guess. rewrite H.
    apply String.eqb_neq in Hne. rewrite Hne. done.
  - intros now start H. unfold time_Since, time_Sub, minDuration, maxDuration.
    lia.
  - intros d Hd left.
    destruct (Z.le_gt_cases left 0) as [Hlate | Hearly].
    + assert (H0 : bonus d = 0%Z) by (apply bonus_late; subst left; lia).
      rewrite H0. repeat split; lia.
    + destruct (bonus_early d ltac:(subst left; lia)) as [Hne Heq].
      fold left in Hne, Heq.
      assert (Hm : (0 <= left / 200000000 <= 100)%Z).
      { subst left. unfold Second in *. split; [apply Z.div_pos; lia |].
        apply Z.div_le_upper_bound; lia. }
      assert (Hm1 : (left mod 200000000 = 0 -> 1 <= left / 200000000)%Z).
      { intros H0. pose proof (Z.div_mod left 200000000 ltac:(lia)). lia. }
      split; [lia |]. split; [auto |]. split; [auto |].
      destruct (Z.eq_dec (left mod 200000000)%Z 0%Z) as [H0 | H0].
      * destruct (Heq H0) as [-> | ->]; specialize (Hm1 H0); lia.
      * rewrite (Hne H0). lia.
Qed.

Lemma guess_scores_witness :
  showResult playing = false /\ "Stockholm" = correctOption playing /\
  score (guess playing "Stockholm" 1800000000 1800000000)
  = (score playing + (100 + bonus (time_Since 1800000000 (roundStartTime playing))))%Z /\
  (score playing + (100 + bonus (time_Since 1800000000 (roundStartTime playing))))%Z
  = 490%Z.
Proof.
  split; [reflexivity |]. split; [reflexivity |].
  split; [| vm_compute; reflexivity].
  exact (proj1 (proj1 (proj2 guess_scores) playing "Stockholm" 1800000000%Z
                 1800000000%Z eq_refl eq_refl)).
Defined.

(** C6, counterexample. A correct guess 50 ms into the round adds 199,
    where the formula with rounding to nearest gives 200. *)
Lemma guess_truncates_bonus :
  showResult playing = false /\
  (score (guess playing "Stockholm" 50000000 50000000) - score playing = 199)%Z /\
  claimedIncrement (time_Since 50000000 (roundStartTime playing)) = 200%Z.
Proof. repeat split; vm_compute; reflexivity. Qed.

(** ** Round setup *)

(** [pickNewTarget] never enters the playing state and leaves question,
    options, answer and score alone. *)
Lemma pickNewTarget_restarts g r :
  let g' := (pickNewTarget g r).1 in
  state g' = StateRoundSetup /\ showResult g' = false /\ wrongGuess g' = "" /\
  options g' = options g /\ correctOption g' = correctOption g /\
  questionText g' = questionText g /\ score g' = score g /\
  round g' = round g.
Proof. unfold pickNewTarget. by destruct (flights g). Qed.

(** With flights in the snapshot, [pickNewTarget] targets one of them and
    launches its resolution; with none, it only arms the retry timer. *)
Lemma pickNewTarget_target g r :
  match flights g with
  | [] =>
      (pickNewTarget g r).2 = [RetryAfter Second] /\
      targetPlane (pickNewTarget g r).1 = targetPlane g
  | _ :: _ =>
      exists target,
        flights g !! (r mod length (flights g))%nat = Some target /\
        targetPlane (pickNewTarget g r).1 = Some target /\
        selectedPlane (pickNewTarget g r).1 = Some target /\
        resolving (pickNewTarget g r).1 = true /\
        resolvedDetails (pickNewTarget g r).1 = None /\
        (pickNewTarget g r).2 = [Resolve (Flights.Callsign target)]
  end.
Proof.
  unfold pickNewTarget. destruct (flights g) as [| first rest] eqn:Hf; [done |].
  cbv zeta.
  assert (Hlt : (r mod length (first :: rest) < length (first :: rest))%nat)
    by (apply Nat.mod_upper_bound; simpl; lia).
  destruct (lookup_lt_is_Some_2 _ _ Hlt) as [target Ht].
  exists target. rewrite Ht. done.
Qed.

(** In go_version, details with an empty or "Unknown" destination or origin
    discard the round: the result is that of [pickNewTarget], and the game
    is not in the playing state. *)
Lemma setupRoundWithData_discards g details f c :
  unusable details ->
  Ebiten.setupRoundWithData g details f c
  = Done (pickNewTarget (received g details) (target_draw c)).1 f
         (pickNewTarget (received g details) (target_draw c)).2 /\
  state (pickNewTarget (received g details) (target_draw c)).1 = StateRoundSetup.
Proof.
  intros Hbad. split; [| apply pickNewTarget_restarts].
  unfold Ebiten.setupRoundWithData. cbv zeta.
  assert (E : String.eqb (Scraper.RealDestination details) ""
              || String.eqb (Scraper.RealDestination details) "Unknown"
              || String.eqb (Scraper.Origin details) ""
              || String.eqb (Scraper.Origin details) "Unknown" = true).
  { destruct Hbad as [-> | [-> | [-> | ->]]]; simpl;
      rewrite ?orb_true_r; reflexivity. }
  rewrite E. by destruct (pickNewTarget _ _).
Qed.

(** In go_version every round that reaches the playing state has four
    options, among them the correct answer once and never "Unknown"; they
    are distinct when the stored airports are. *)
Lemma setupRoundWithData_options g details f c target :
  ~ unusable details ->
  targetPlane g = Some target ->
  exists g' f',
    Ebiten.setupRoundWithData g details f c = Done g' f' [] /\
    state g' = StateGamePlaying /\
    roundStartTime g' = clock c /\
    (correctOption g' = Scraper.RealDestination details \/
     correctOption g' = Scraper.Origin details) /\
    length (options g') = 4%nat /\
    length (filter (λ o, o = correctOption g') (options g')) = 1%nat /\
    ("Unknown" ∉ options g') /\
    (NoDup (Airports.contents f) -> NoDup (options g')).
Proof.
  intros Hok Ht. unfold Ebiten.setupRoundWithData. cbv zeta.
  assert (Hd1 : Scraper.RealDestination details <> "") by (intros H; apply Hok; red; tauto).
  assert (Hd2 : Scraper.RealDestination details <> "Unknown") by (intros H; apply Hok; red; tauto).
  assert (Ho1 : Scraper.Origin details <> "") by (intros H; apply Hok; red; tauto).
  assert (Ho2 : Scraper.Origin details <> "Unknown") by (intros H; apply Hok; red; tauto).
  apply String.eqb_neq in Hd1 as E1. apply String.eqb_neq in Hd2 as E2.
  apply String.eqb_neq in Ho1 as E3. apply String.eqb_neq in Ho2 as E4.
  rewrite E1, E2, E3, E4. cbn [orb].
  change (targetPlane (received g details)) with (targetPlane g). rewrite Ht.
  match goal with
  | |- context [Ebiten.generateOptions ?x ?y] => set (g2 := x); set (f2 := y)
  end.
  destruct fallback_lists_NoDup as (Hfb & _ & Hfu & _).
  destruct (generateOptionsWith_options Ebiten.fallbacks g2 f2
              (shuffle_distractors c) (shuffle_options c) Hfb ltac:(simpl; lia))
    as (Hlen & Hcount & Hnd & Hunk & Hcorr).
  fold (Ebiten.generateOptions g2 f2 (shuffle_distractors c) (shuffle_options c)) in *.
  set (g3 := Ebiten.generateOptions g2 f2 _ _) in *.
  assert (Hc2 : correctOption g2 = Scraper.RealDestination details \/
                correctOption g2 = Scraper.Origin details).
  { subst g2. destruct (_ || _); [by right | by left]. }
  exists (play g3 (clock c)), f2.
  split; [reflexivity |].
  change (options (play g3 (clock c))) with (options g3).
  change (correctOption (play g3 (clock c))) with (correctOption g3).
  rewrite Hcorr.
  repeat split; try done.
  - apply Hunk; [| done]. destruct Hc2 as [-> | ->]; done.
  - intros Hf. apply Hnd, refreshAirports_NoDup.
    subst f2. by do 2 apply Airports.SaveAirport_NoDup.
Qed.

(** C3, evaluated on go_raylib/main.go. Details with a destination and an
    empty origin start the round in go_raylib, which only examines the
    destination; go_version discards the same details and picks a new
    target. *)
Theorem setupRoundWithData_raylib_keeps_empty_origin :
  (exists g' f',
      Raylib.setupRoundWithData awaiting
        (Scraper.mkDetails "Stockholm (ARN)" "Stockholm (ARN)" "A320" "")
        Airports.Missing steady = Done g' f' [] /\
      state g' = StateGamePlaying /\
      correctOption g' = "Stockholm (ARN)") /\
  (exists g',
      Ebiten.setupRoundWithData awaiting
        (Scraper.mkDetails "Stockholm (ARN)" "Stockholm (ARN)" "A320" "")
        Airports.Missing steady = Done g' Airports.Missing [Resolve "FIN123"] /\
      state g' = StateRoundSetup).
Proof.
  split.
  - eexists _, _. split; [vm_compute; reflexivity |]. split; reflexivity.
  - eexists. split; [vm_compute; reflexivity | reflexivity].
Qed.

(** C5, evaluated on go_raylib/main.go. For a flight into Helsinki whose
    origin is resolved as "Unknown", go_raylib asks for the origin: the
    correct answer and one of the four options is "Unknown". *)
Theorem generateOptions_raylib_offers_unknown :
  exists g' f',
    Raylib.setupRoundWithData awaiting
      (Scraper.mkDetails "Helsinki (HEL)" "Helsinki (HEL)" "A320" "Unknown")
      Airports.Missing steady = Done g' f' [] /\
    state g' = StateGamePlaying /\
    correctOption g' = "Unknown" /\
    questionText g' = "Where is FIN123 from?" /\
    options g' = ["Helsinki (HEL)"; "London"; "Paris"; "Unknown"].
Proof.
  eexists _, _. split; [vm_compute; reflexivity |]. repeat split; reflexivity.
Qed.

(** ** More on the rounds *)

(** In both front ends [generateOptions] leaves exactly four options, the
    correct answer among them exactly once, whatever the airport file
    holds and whatever is drawn; the answer itself is not changed. *)
Theorem generateOptions_four_options
    (g : Game) (f : Airports.file) (draw1 draw2 : nat -> nat) :
  (length (options (Ebiten.generateOptions g f draw1 draw2)) = 4%nat /\
   length (filter (λ o, o = correctOption g)
                  (options (Ebiten.generateOptions g f draw1 draw2))) = 1%nat /\
   correctOption (Ebiten.generateOptions g f draw1 draw2) = correctOption g) /\
  (length (options (Raylib.generateOptions g f draw1 draw2)) = 4%nat /\
   length (filter (λ o, o = correctOption g)
                  (options (Raylib.generateOptions g f draw1 draw2))) = 1%nat /\
   correctOption (Raylib.generateOptions g f draw1 draw2) = correctOption g).
Proof.
  destruct fallback_lists_NoDup as (He & Hr & _ & _).
  split.
  - destruct (generateOptionsWith_options Ebiten.fallbacks g f draw1 draw2 He
                ltac:(simpl; lia)) as (H1 & H2 & _ & _ & H3).
    done.
  - destruct (generateOptionsWith_options Raylib.fallbacks g f draw1 draw2 Hr
                ltac:(simpl; lia)) as (H1 & H2 & _ & _ & H3).
    done.
Qed.

Lemma setupRoundWithData_discards_witness :
  unusable (Scraper.mkDetails "Stockholm (ARN)" "Stockholm (ARN)" "A320" "") /\
  state (pickNewTarget
           (received awaiting
              (Scraper.mkDetails "Stockholm (ARN)" "Stockholm (ARN)" "A320" ""))
           (target_draw steady)).1 = StateRoundSetup.
Proof.
  assert (H : unusable (Scraper.mkDetails "Stockholm (ARN)" "Stockholm (ARN)"
                                          "A320" ""))
    by (right; right; left; reflexivity).
  exact (conj H (proj2 (setupRoundWithData_discards awaiting _ Airports.Missing
                          steady H))).
Defined.

Lemma setupRoundWithData_options_witness :
  targetPlane awaiting = Some Flights.sampleFlight /\
  exists g' f',
    Ebiten.setupRoundWithData awaiting
      (Scraper.mkDetails "Stockholm (ARN)" "Stockholm (ARN)" "A320" "Helsinki (HEL)")
      Airports.Missing steady = Done g' f' [] /\
    state g' = StateGamePlaying /\
    roundStartTime g' = clock steady /\
    (correctOption g' = "Stockholm (ARN)" \/ correctOption g' = "Helsinki (HEL)") /\
    length (options g') = 4%nat /\
    length (filter (λ o, o = correctOption g') (options g')) = 1%nat /\
    ("Unknown" ∉ options g') /\
    (NoDup (Airports.contents Airports.Missing) -> NoDup (options g')).
Proof.
  split; [reflexivity |].
  apply (setupRoundWithData_options awaiting
           (Scraper.mkDetails "Stockholm (ARN)" "Stockholm (ARN)" "A320"
                              "Helsinki (HEL)")
           Airports.Missing steady Flights.sampleFlight); [| reflexivity].
  intros [H | [H | [H | H]]]; discriminate H.
Defined.

(** In go_version a round asks for the origin of a flight whose
    destination names Helsinki or Vantaa, and for the destination of any
    other flight; the named place is the correct answer. *)
Theorem setupRoundWithData_question
    (g : Game) (details : Scraper.ResolvedDetails) (f : Airports.file)
    (c : chance) (target : Flights.Flight) :
  ~ unusable details ->
  targetPlane g = Some target ->
  exists g' f',
    Ebiten.setupRoundWithData g details f c = Done g' f' [] /\
    if Contains (Scraper.RealDestination details) "Helsinki"
       || Contains (Scraper.RealDestination details) "Vantaa"
    then questionText g' = "Where is " +:+ Flights.Callsign target +:+ " from?" /\
         correctOption g' = Scraper.Origin details
    else questionText g' = "Where is " +:+ Flights.Callsign target +:+ " going?" /\
         correctOption g' = Scraper.RealDestination details.
Proof.
  intros Hok Ht. unfold Ebiten.setupRoundWithData. cbv zeta.
  assert (E : String.eqb (Scraper.RealDestination details) ""
              || String.eqb (Scraper.RealDestination details) "Unknown"
              || String.eqb (Scraper.Origin details) ""
              || String.eqb (Scraper.Origin details) "Unknown" = false).
  { apply not_true_is_false. intros H. apply Hok. unfold unusable.
    rewrite !orb_true_iff, !String.eqb_eq in H. tauto. }
  rewrite E.
  change (targetPlane (received g details)) with (targetPlane g). rewrite Ht.
  eexists _, _. split; [reflexivity |].
  destruct (Contains (Scraper.RealDestination details) "Helsinki"
            || Contains (Scraper.RealDestination details) "Vantaa");
    split; reflexivity.
Qed.

Lemma setupRoundWithData_question_witness :
  targetPlane awaiting = Some Flights.sampleFlight /\
  exists g' f',
    Ebiten.setupRoundWithData awaiting
      (Scraper.mkDetails "Helsinki-Vantaa" "Helsinki-Vantaa" "A320" "Oslo")
      Airports.Missing steady = Done g' f' [] /\
    if Contains "Helsinki-Vantaa" "Helsinki" || Contains "Helsinki-Vantaa" "Vantaa"
    then questionText g' = "Where is " +:+ "FIN123" +:+ " from?" /\
         correctOption g' = "Oslo"
    else questionText g' = "Where is " +:+ "FIN123" +:+ " going?" /\
         correctOption g' = "Helsinki-Vantaa".
Proof.
  split; [reflexivity |].
  apply (setupRoundWithData_question awaiting
           (Scraper.mkDetails "Helsinki-Vantaa" "Helsinki-Vantaa" "A320" "Oslo")
           Airports.Missing steady Flights.sampleFlight); [| reflexivity].
  intros [H | [H | [H | H]]]; discriminate H.
Defined.

Lemma nextRound_round g r :
  round (nextRound g r).1 = (round g + 1)%Z /\
  flights (nextRound g r).1 = flights g /\
  score (nextRound g r).1 = score g /\
  state (nextRound g r).1
  = (if (5 <? round g + 1)%Z then StateGameOver else StateRoundSetup).
Proof.
  unfold nextRound. cbv zeta. cbn [round withRound].
  destruct (5 <? round g + 1)%Z; [done |].
  unfold pickNewTarget. cbn [flights withRound]. by destruct (flights g).
Qed.

(** A game has five rounds.  After [startGame] on a snapshot with flights
    the game is in round 1 with score 0; each [nextRound] adds one to the
    round; the game is over from the fifth [nextRound] on, and before that
    it is setting up a round. *)
Theorem game_has_five_rounds (g : Game) (r : nat) (draws : list nat) :
  flights g <> [] ->
  let started := (startGame g r).1 in
  round started = 1%Z /\ score started = 0%Z /\ state started = StateRoundSetup /\
  round (rounds started draws) = (1 + Z.of_nat (length draws))%Z /\
  score (rounds started draws) = 0%Z /\
  state (rounds started draws)
  = (if (5 <=? length draws)%nat then StateGameOver else StateRoundSetup).
Proof.
  intros Hf started.
  assert (H0 : round started = 1%Z /\ score started = 0%Z /\
               state started = StateRoundSetup).
  { subst started. unfold startGame. destruct (flights g); [done |].
    cbv zeta. destruct (nextRound_round
      (mkGame (f :: l) (state g) (airports g) (camLat g) (camLon g)
              (selectedPlane g) (resolvedDetails g) (resolving g) 0
              (targetPlane g) 0 (roundStartTime g) (questionText g) (options g)
              (correctOption g) (wrongGuess g) (showResult g) (resultCorrect g)
              (resultStartTime g)) r) as (H1 & _ & H3 & H4).
    rewrite H1, H3, H4. done. }
  destruct H0 as (Hr & Hs & Hst).
  split; [done |]. split; [done |]. split; [done |].
  unfold rounds.
  induction draws as [| d draws IH] using rev_ind.
  - simpl. rewrite Hr, Hs, Hst. done.
  - rewrite foldl_app. cbn [foldl].
    destruct IH as (IH1 & IH2 & IH3).
    destruct (nextRound_round (foldl (λ g r, (nextRound g r).1) started draws) d)
      as (H1 & _ & H3 & H4).
    rewrite H1, H3, H4, IH1, IH2, length_app. cbn [length].
    split; [lia |]. split; [done |].
    destruct (Z.ltb_spec 5 (1 + Z.of_nat (length draws) + 1)),
             (Nat.leb_spec 5 (length draws + 1)); try done; lia.
Qed.

Lemma game_has_five_rounds_witness :
  flights awaiting <> [] /\
  state (rounds (startGame awaiting 0).1 [0; 0; 0; 0; 0]%nat) = StateGameOver.
Proof.
  assert (H : flights awaiting <> []) by discriminate.
  split; [exact H |].
  exact (proj2 (proj2 (proj2 (proj2 (proj2
           (game_has_five_rounds awaiting 0 [0; 0; 0; 0; 0]%nat H)))))).
Defined.

Lemma rebind_id old snapshot :
  Flights.Icao24 <$> rebind old snapshot = Flights.Icao24 <$> old.
Proof.
  destruct old as [p |]; [| done]. simpl.
  destruct (list_find _ snapshot) as [[i f] |] eqn:E; [| done].
  apply list_find_Some in E as (_ & Hid & _). simpl. by f_equal.
Qed.

Lemma rebind_rebound old snapshot : rebound old (rebind old snapshot) snapshot.
Proof.
  destruct old as [p |]; [| done]. simpl.
  destruct (list_find _ snapshot) as [[i f] |] eqn:E.
  - left. apply list_find_Some in E as (Hi & Hid & Hbefore).
    exists i, f. repeat split; try done.
    intros j f' Hj Hf'. by apply (Hbefore j f').
  - right. split; [| done]. apply list_find_None in E.
    by rewrite Forall_forall in E.
Qed.

(** A failed poll leaves the game as it is.  A successful poll replaces
    the snapshot and re-binds the selected and the target aircraft, each
    in the same way: to the first record of the new snapshot with its
    transponder id, or, when the snapshot has none, to the record it was;
    so both keep their transponder id.  Score, state, round, question,
    options and answer are as before. *)
Theorem refreshFlights_rebinds
    (g : Game) (snapshot : list Flights.Flight) (err : option Flights.error) :
  (is_Some err -> refreshFlights g snapshot err = g) /\
  (err = None ->
   let g' := refreshFlights g snapshot err in
   flights g' = snapshot /\
   rebound (targetPlane g) (targetPlane g') snapshot /\
   rebound (selectedPlane g) (selectedPlane g') snapshot /\
   Flights.Icao24 <$> targetPlane g' = Flights.Icao24 <$> targetPlane g /\
   Flights.Icao24 <$> selectedPlane g' = Flights.Icao24 <$> selectedPlane g /\
   score g' = score g /\ state g' = state g /\ round g' = round g /\
   questionText g' = questionText g /\ options g' = options g /\
   correctOption g' = correctOption g).
Proof.
  split.
  - intros [e ->]. reflexivity.
  - intros ->. cbv zeta. unfold refreshFlights.
    cbn [flights targetPlane selectedPlane score state round questionText
         options correctOption].
    split; [done |]. split; [apply rebind_rebound |].
    split; [apply rebind_rebound |].
    split; [apply rebind_id |]. split; [apply rebind_id |]. done.
Qed.

Lemma refreshFlights_rebinds_witness :
  (None : option Flights.error) = None /\
  targetPlane playing = Some Flights.sampleFlight /\
  targetPlane (refreshFlights playing [otherFlight; movedFlight] None)
  = Some movedFlight /\
  rebound (targetPlane playing)
          (targetPlane (refreshFlights playing [otherFlight; movedFlight] None))
          [otherFlight; movedFlight] /\
  rebound (selectedPlane playing)
          (selectedPlane (refreshFlights playing [otherFlight; movedFlight] None))
          [otherFlight; movedFlight].
Proof.
  split; [reflexivity |]. split; [reflexivity |].
  split; [vm_compute; reflexivity |].
  pose proof (proj2 (refreshFlights_rebinds playing [otherFlight; movedFlight]
                       None) eq_refl) as H.
  exact (conj (proj1 (proj2 H)) (proj1 (proj2 (proj2 H)))).
Defined.

End Game.
